(** * Homework2/Bandit.py: epsilon-greedy and Thompson-sampling bandits

    A shallow embedding of the two policies of [Bandit.py], of the
    experiment loop that drives them, of the curves, table and totals of the
    visualisation and of the comparison driver, followed by the properties
    established about them.

    Numbers.  Python integers are [Z].  Rewards, estimates and random
    samples are exact rationals [Q], compared with [==] the way Python
    compares numbers by value; rounding of binary floating point is outside
    the model.

    Lists.  A Python list is a [list]; [l[i]] follows CPython: a negative
    index is shifted by the length once, and an index that is still
    outside the list raises [IndexError].

    Effects.  Methods are computations in a state-and-exception monad over
    a [world]: the object ([self]) together with the process-wide [random]
    module.  A raised exception keeps the state reached so far, as in
    Python. *)

From Stdlib Require Import String ZArith QArith Lia Lqa.
From stdpp Require Import base list.

Open Scope Z_scope.

(** ** Exceptions and the method monad *)

Inductive exn : Set := IndexError | ValueError | ZeroDivisionError.

Inductive res (A : Type) : Type :=
| Ok (a : A)
| Raise (e : exn).
Arguments Ok {A} a.
Arguments Raise {A} e.

Definition M (St A : Type) : Type := St -> res A * St.

Definition ret {St A} (a : A) : M St A := fun s => (Ok a, s).

Definition raise {St A} (e : exn) : M St A := fun s => (Raise e, s).

Definition bind {St A B} (m : M St A) (k : A -> M St B) : M St B :=
  fun s => match m s with
           | (Ok a, s') => k a s'
           | (Raise e, s') => (Raise e, s')
           end.

Notation "'let*' x ':=' m 'in' k" := (bind m (fun x => k))
  (at level 10, x name, m at level 100, k at level 200).

Definition lift {St A} (r : res A) : M St A := fun s => (r, s).

(** [for _ in range(n): acc = body(acc)], the local variable of the loop
    threaded through the iterations. *)
Fixpoint for_range {St A} (n : nat) (body : A -> M St A) (acc : A) : M St A :=
  match n with
  | O => ret acc
  | S k => let* acc' := body acc in for_range k body acc'
  end.

(** A list comprehension [[f(x) for x in l]] whose element expression has
    effects. *)
Fixpoint list_comp {St A B} (f : A -> M St B) (l : list A) : M St (list B) :=
  match l with
  | [] => ret []
  | x :: t => let* y := f x in let* ys := list_comp f t in ret (y :: ys)
  end.

(** ** Python lists *)

(** Index normalisation of [list.__getitem__] and [list.__setitem__]. *)
Definition py_index (len : nat) (i : Z) : res nat :=
  let j := if i <? 0 then i + Z.of_nat len else i in
  if (j <? 0) || (Z.of_nat len <=? j) then Raise IndexError
  else Ok (Z.to_nat j).

Definition getitem {A} (l : list A) (i : Z) : res A :=
  match py_index (length l) i with
  | Ok k => match l !! k with
            | Some x => Ok x
            | None => Raise IndexError
            end
  | Raise e => Raise e
  end.

Definition setitem {A} (l : list A) (i : Z) (x : A) : res (list A) :=
  match py_index (length l) i with
  | Ok k => Ok (<[k:=x]> l)
  | Raise e => Raise e
  end.

Definition len {A} (l : list A) : Z := Z.of_nat (length l).

(** [range(n)] *)
Definition range (n : Z) : list Z := seqZ 0 n.

(** [l[:stop]]: a negative [stop] counts from the end, and a [stop] outside
    the list is clamped. *)
Definition slice_to {A} (l : list A) (stop : Z) : list A :=
  let stop := if stop <? 0 then Z.max 0 (stop + len l) else stop in
  take (Z.to_nat stop) l.

(** [sum(l)]: starts from [0] and adds from the left. *)
Definition sumZ (l : list Z) : Z := fold_left Z.add l 0.
Definition sumQ (l : list Q) : Q := fold_left Qplus l 0%Q.

(** [max(l)]: the first element is the candidate, replaced only by a
    strictly greater one; [ValueError] on the empty list. *)
Definition max_step (m y : Q) : Q :=
  match (m ?= y)%Q with Lt => y | _ => m end.

Definition py_max (l : list Q) : res Q :=
  match l with
  | [] => Raise ValueError
  | x :: t => Ok (fold_left max_step t x)
  end.

(** [l.index(x)]: position of the first element equal to [x];
    [ValueError] when there is none. *)
Fixpoint index_from (l : list Q) (x : Q) (i : Z) : res Z :=
  match l with
  | [] => Raise ValueError
  | y :: t => if Qeq_bool y x then Ok i else index_from t x (i + 1)
  end.

Definition index (l : list Q) (x : Q) : res Z := index_from l x 0.

(** ** The [random] module

    The generator is an oracle: the value of each call is given by the
    number of calls made before it (and by the arguments).  The library
    functions check their arguments as CPython does. *)

Record Random : Type := {
  random_at : nat -> Q;
  randint_at : nat -> Z -> Z -> Z;
  betavariate_at : nat -> Z -> Z -> Q
}.

(** [random.random()] is in [[0, 1)]. *)
Definition random_in_unit (g : Random) : Prop :=
  forall n, (0 <= random_at g n /\ random_at g n < 1)%Q.

(** [random.randint(a, b)] is in [[a, b]]. *)
Definition randint_in_range (g : Random) : Prop :=
  forall n a b, a <= b -> a <= randint_at g n a b <= b.

Record world (T : Type) : Type := World {
  self : T;
  gen : Random;
  calls : nat
}.
Arguments World {T} self gen calls.
Arguments self {T} w.
Arguments gen {T} w.
Arguments calls {T} w.

Definition get_self {T} : M (world T) T := fun w => (Ok (self w), w).

Definition set_self {T} (s : T) : M (world T) unit :=
  fun w => (Ok tt, World s (gen w) (calls w)).

Definition drawn {T} (w : world T) : world T :=
  World (self w) (gen w) (S (calls w)).

Definition random_random {T} : M (world T) Q :=
  fun w => (Ok (random_at (gen w) (calls w)), drawn w).

Definition random_randint {T} (a b : Z) : M (world T) Z :=
  fun w => if b <? a then (Raise ValueError, w)
           else (Ok (randint_at (gen w) (calls w) a b), drawn w).

Definition random_betavariate {T} (al be : Z) : M (world T) Q :=
  fun w => if (al <=? 0) || (be <=? 0) then (Raise ValueError, w)
           else (Ok (betavariate_at (gen w) (calls w) al be), drawn w).

(** ** class Bandit *)

Module Bandit.

Record t : Type := mk {
  true_means : list Q;
  estimated_means : list Q;
  action_counts : list Z
}.

Definition __init__ (true_means : list Q) : t :=
  {| true_means := true_means;
     estimated_means := replicate (length true_means) 0%Q;
     action_counts := replicate (length true_means) 0 |}.

Definition set_true_means (l : list Q) (b : t) : t :=
  mk l (estimated_means b) (action_counts b).

Definition set_action_counts (l : list Z) (b : t) : t :=
  mk (true_means b) (estimated_means b) l.

End Bandit.

(** ** class EpsilonGreedy(Bandit) *)

Module EpsilonGreedy.

Record t : Type := mk {
  base : Bandit.t;
  epsilon : Q;
  action_values : list Q
}.

Definition true_means (s : t) : list Q := Bandit.true_means (base s).
Definition estimated_means (s : t) : list Q := Bandit.estimated_means (base s).
Definition action_counts (s : t) : list Z := Bandit.action_counts (base s).

Definition set_action_counts (l : list Z) (s : t) : t :=
  mk (Bandit.set_action_counts l (base s)) (epsilon s) (action_values s).

Definition set_action_values (l : list Q) (s : t) : t :=
  mk (base s) (epsilon s) l.

Definition default_epsilon : Q := (2 # 10)%Q.

Definition __init__ (true_means : list Q) (epsilon : Q) : t :=
  let b := Bandit.__init__ true_means in
  let b := Bandit.set_true_means true_means b in
  let b := Bandit.set_action_counts (replicate (length true_means) 0) b in
  mk b epsilon (replicate (length true_means) 0%Q).

Definition pull : M (world t) Z :=
  let* u := random_random in
  let* s := get_self in
  match (u ?= epsilon s)%Q with
  | Lt => random_randint 0 (len (true_means s) - 1)
  | _ =>
    let* m := lift (py_max (action_values s)) in
    lift (index (action_values s) m)
  end.

Definition update (arm : Z) (reward : Q) : M (world t) unit :=
  (* self.action_counts[arm] += 1 *)
  let* s := get_self in
  let* c := lift (getitem (action_counts s) arm) in
  let* cs := lift (setitem (action_counts s) arm (c + 1)) in
  let* _ := set_self (set_action_counts cs s) in
  (* n = self.action_counts[arm] *)
  let* s := get_self in
  let* n := lift (getitem (action_counts s) arm) in
  (* self.action_values[arm] += (1 / n) * (reward - self.action_values[arm]) *)
  let* v := lift (getitem (action_values s) arm) in
  let* q := (if n =? 0 then raise ZeroDivisionError
             else ret (1 / inject_Z n)%Q) in
  let* v' := lift (getitem (action_values s) arm) in
  let* vs := lift (setitem (action_values s) arm (v + q * (reward - v'))%Q) in
  set_self (set_action_values vs s).

Definition experiment (num_trials : Z) : M (world t) (list Q) :=
  for_range (Z.to_nat num_trials)
    (fun rewards =>
       let* arm := pull in
       let* s := get_self in
       let* reward := lift (getitem (true_means s) arm) in
       let* _ := update arm reward in
       ret (rewards ++ [reward]))
    [].

(** [report] formats two numbers with two decimals; the model returns the
    numbers themselves, [(avg_reward, avg_regret)]. *)
Definition report : M (world t) (Q * Q) :=
  let* s := get_self in
  let* avg_reward :=
    (if len (action_values s) =? 0 then raise ZeroDivisionError
     else ret (sumQ (action_values s) / inject_Z (len (action_values s)))%Q) in
  let* m := lift (py_max (true_means s)) in
  ret (avg_reward, (m - avg_reward)%Q).

End EpsilonGreedy.

(** ** class ThompsonSampling(Bandit) *)

Module ThompsonSampling.

Record t : Type := mk {
  base : Bandit.t;
  alpha : list Z;
  beta : list Z
}.

Definition true_means (s : t) : list Q := Bandit.true_means (base s).
Definition estimated_means (s : t) : list Q := Bandit.estimated_means (base s).
Definition action_counts (s : t) : list Z := Bandit.action_counts (base s).

Definition set_alpha (l : list Z) (s : t) : t := mk (base s) l (beta s).
Definition set_beta (l : list Z) (s : t) : t := mk (base s) (alpha s) l.

Definition __init__ (true_means : list Q) : t :=
  mk (Bandit.__init__ true_means)
     (replicate (length true_means) 1)
     (replicate (length true_means) 1).

Definition pull : M (world t) Z :=
  let* s := get_self in
  let* sampled_means :=
    list_comp
      (fun i =>
         let* s := get_self in
         let* a := lift (getitem (alpha s) i) in
         let* b := lift (getitem (beta s) i) in
         random_betavariate a b)
      (range (len (true_means s))) in
  let* m := lift (py_max sampled_means) in
  lift (index sampled_means m).

Definition update (arm : Z) (reward : Q) : M (world t) unit :=
  let* s := get_self in
  if Qeq_bool reward 1 then
    (* self.alpha[arm] += 1 *)
    let* a := lift (getitem (alpha s) arm) in
    let* l := lift (setitem (alpha s) arm (a + 1)) in
    set_self (set_alpha l s)
  else
    (* self.beta[arm] += 1 *)
    let* b := lift (getitem (beta s) arm) in
    let* l := lift (setitem (beta s) arm (b + 1)) in
    set_self (set_beta l s).

Definition experiment (num_trials : Z) : M (world t) (list Q) :=
  for_range (Z.to_nat num_trials)
    (fun rewards =>
       let* arm := pull in
       let* s := get_self in
       let* reward := lift (getitem (true_means s) arm) in
       let* _ := update arm reward in
       ret (rewards ++ [reward]))
    [].

(** As for [EpsilonGreedy.report], the result is the pair
    [(avg_reward, avg_regret)] that the method formats. *)
Definition report : M (world t) (Q * Q) :=
  let* s := get_self in
  let* avg_reward :=
    (if sumZ (alpha s) + sumZ (beta s) =? 0 then raise ZeroDivisionError
     else ret (inject_Z (sumZ (alpha s))
               / inject_Z (sumZ (alpha s) + sumZ (beta s)))%Q) in
  let* m := lift (py_max (true_means s)) in
  ret (avg_reward, (m - avg_reward)%Q).

End ThompsonSampling.

(** ** Module-level constants *)

Definition true_means : list Q := [1; 2; 3; 4]%Q.
Definition num_trials : Z := 20000.

(** ** class Visualization *)

Module Visualization.

(** [plot2] draws, for each policy, the list
    [[sum(rewards[:i+1]) for i in range(len(rewards))]] against
    [range(len(...))]. The model returns the two curves as lists of points
    coordinates [(xs, ys)]; the drawing itself is not modelled. *)
Definition cumulative (rewards : list Q) : list Q :=
  map (fun i => sumQ (slice_to rewards (i + 1))) (range (len rewards)).

Definition plot2 (epsilon_greedy_rewards thompson_rewards : list Q)
  : (list Z * list Q) * (list Z * list Q) :=
  let cumulative_epsilon_greedy_rewards := cumulative epsilon_greedy_rewards in
  let cumulative_thompson_rewards := cumulative thompson_rewards in
  ((range (len cumulative_epsilon_greedy_rewards), cumulative_epsilon_greedy_rewards),
   (range (len cumulative_thompson_rewards), cumulative_thompson_rewards)).

(** A cell of the table written by [store_rewards_to_csv]: a string or a
    number. A row passed to [writerow] is a dictionary from field names to
    cells; [csv.DictWriter] writes its values in the order of [fieldnames],
    an empty string for a missing field. *)
Inductive cell : Type := Str (s : string) | Num (q : Q).

Fixpoint dict_get (d : list (string * cell)) (key : string) : cell :=
  match d with
  | [] => Str ""
  | (k, v) :: t => if String.eqb k key then v else dict_get t key
  end.

Definition writeheader (fieldnames : list string) (file : list (list cell))
  : list (list cell) :=
  file ++ [map Str fieldnames].

Definition writerow (fieldnames : list string) (d : list (string * cell))
    (file : list (list cell)) : list (list cell) :=
  file ++ [map (dict_get d) fieldnames].

(** The lines of [bandit_rewards.csv] after [store_rewards_to_csv]; mode
    ['w'] starts from an empty file. *)
Definition store_rewards_to_csv (epsilon_greedy_rewards thompson_rewards : list Q)
  : list (list cell) :=
  let fieldnames := ["Bandit"; "Reward"; "Algorithm"]%string in
  let file := writeheader fieldnames [] in
  let file :=
    fold_left
      (fun file reward =>
         writerow fieldnames
           [("Bandit", Str "EpsilonGreedy"); ("Reward", Num reward);
            ("Algorithm", Str "Epsilon-Greedy")]%string file)
      epsilon_greedy_rewards file in
  fold_left
    (fun file reward =>
       writerow fieldnames
         [("Bandit", Str "ThompsonSampling"); ("Reward", Num reward);
          ("Algorithm", Str "Thompson Sampling")]%string file)
    thompson_rewards file.

Record totals : Type := mk {
  cumulative_epsilon_greedy_reward : Q;
  cumulative_thompson_reward : Q;
  cumulative_epsilon_greedy_regret : Q;
  cumulative_thompson_regret : Q
}.

(** The four numbers that [report_cumulative_reward_and_regret] prints.
    The method reads the module-level list of true means, here the first
    argument. *)
Definition report_cumulative_reward_and_regret
    (true_means : list Q) (epsilon_greedy_rewards thompson_rewards : list Q)
  : res totals :=
  let eg_reward := sumQ epsilon_greedy_rewards in
  let ts_reward := sumQ thompson_rewards in
  match py_max true_means with
  | Raise e => Raise e
  | Ok m =>
    Ok (mk eg_reward ts_reward
          (m * inject_Z (len epsilon_greedy_rewards) - eg_reward)%Q
          (m * inject_Z (len thompson_rewards) - ts_reward)%Q)
  end.

End Visualization.

(** ** [comparison]

    Both policies are built on the module-level [true_means] and run one
    after the other on the same generator. The result is what the
    visualisation receives and produces: the two reward sequences, the curves
    of [plot2], the table and the printed totals, with the number of draws
    made. [plot1] (numpy and logarithms) is not modelled. *)

Record shown : Type := Shown {
  epsilon_greedy_rewards : list Q;
  thompson_rewards : list Q;
  curves : (list Z * list Q) * (list Z * list Q);
  table : list (list Visualization.cell);
  printed : Visualization.totals
}.

Definition comparison (num_trials : Z) (g : Random) (n : nat) : res shown * nat :=
  let epsilon := (2 # 10)%Q in
  let epsilon_greedy_bandit := EpsilonGreedy.__init__ true_means epsilon in
  let thompson_bandit := ThompsonSampling.__init__ true_means in
  match EpsilonGreedy.experiment num_trials (World epsilon_greedy_bandit g n) with
  | (Raise e, w1) => (Raise e, calls w1)
  | (Ok epsilon_greedy_rewards, w1) =>
    match ThompsonSampling.experiment num_trials
            (World thompson_bandit (gen w1) (calls w1)) with
    | (Raise e, w2) => (Raise e, calls w2)
    | (Ok thompson_rewards, w2) =>
      let curves := Visualization.plot2 epsilon_greedy_rewards thompson_rewards in
      let table :=
        Visualization.store_rewards_to_csv epsilon_greedy_rewards thompson_rewards in
      match Visualization.report_cumulative_reward_and_regret
              true_means epsilon_greedy_rewards thompson_rewards with
      | Raise e => (Raise e, calls w2)
      | Ok t =>
        (Ok (Shown epsilon_greedy_rewards thompson_rewards curves table t), calls w2)
      end
    end
  end.

(** ** The caller: a sequence of calls made one after the other *)

Fixpoint call_each {St A} (f : A -> M St unit) (l : list A) : M St unit :=
  match l with
  | [] => ret tt
  | x :: t => let* _ := f x in call_each f t
  end.

(** The rewards passed to arm [a] in a sequence of [update(arm, reward)]
    calls, in order. *)
Fixpoint rewards_to (a : Z) (l : list (Z * Q)) : list Q :=
  match l with
  | [] => []
  | (arm, r) :: t => if arm =? a then r :: rewards_to a t else rewards_to a t
  end.

(** The arithmetic mean [(r1 + ... + rn) / n]. *)
Definition mean (rs : list Q) : Q := (sumQ rs / inject_Z (len rs))%Q.

(** Every call names an arm of [[0, K)]. *)
Definition arms_in_range (K : nat) (l : list (Z * Q)) : Prop :=
  Forall (fun c => 0 <= fst c < Z.of_nat K) l.

(** ** Well-formed objects and histories *)

(** The lists of an [EpsilonGreedy] object have the length of
    [true_means]. *)
Definition eg_wf (s : EpsilonGreedy.t) : Prop :=
  length (EpsilonGreedy.action_counts s) = length (EpsilonGreedy.true_means s) /\
  length (EpsilonGreedy.action_values s) = length (EpsilonGreedy.true_means s).

(** The state that a successful [EpsilonGreedy.update] leaves: position
    [k] of both lists rewritten, from the count [c] and the value [v] found
    there. *)
Definition eg_updated (k : nat) (c : Z) (v : Q) (reward : Q)
    (s : EpsilonGreedy.t) : EpsilonGreedy.t :=
  EpsilonGreedy.set_action_values
    (<[k := (v + 1 / inject_Z (c + 1) * (reward - v))%Q]>
       (EpsilonGreedy.action_values s))
    (EpsilonGreedy.set_action_counts
       (<[k := c + 1]> (EpsilonGreedy.action_counts s)) s).

(** [s] is what the calls [hist] make of a fresh object: each count is the
    number of calls to its arm, each value times its count is the sum of the
    rewards passed to its arm. *)
Definition eg_tracks (hist : list (Z * Q)) (s : EpsilonGreedy.t) : Prop :=
  eg_wf s /\
  forall a, 0 <= a < len (EpsilonGreedy.true_means s) ->
    exists v,
      EpsilonGreedy.action_counts s !! Z.to_nat a = Some (len (rewards_to a hist)) /\
      EpsilonGreedy.action_values s !! Z.to_nat a = Some v /\
      (v * inject_Z (len (rewards_to a hist)) == sumQ (rewards_to a hist))%Q.

(** The calls [update(arm, reward)] of a list, in order. *)
Definition eg_updates (l : list (Z * Q)) : M (world EpsilonGreedy.t) unit :=
  call_each (fun c => EpsilonGreedy.update (fst c) (snd c)) l.

(** A generator for the examples: [random()] is always [0], [randint(a, b)]
    always [a], [betavariate] always [1/2]. *)
Definition constant_gen : Random :=
  {| random_at := fun _ => 0%Q;
     randint_at := fun _ a _ => a;
     betavariate_at := fun _ _ _ => (1 # 2)%Q |}.

(** The lists of a [ThompsonSampling] object have the length of
    [true_means]. *)
Definition ts_wf (s : ThompsonSampling.t) : Prop :=
  length (ThompsonSampling.alpha s) = length (ThompsonSampling.true_means s) /\
  length (ThompsonSampling.beta s) = length (ThompsonSampling.true_means s).

(** The state that a successful [ThompsonSampling.update] leaves: position
    [k] of [alpha] or of [beta] incremented. *)
Definition ts_updated (k : nat) (reward : Q) (s : ThompsonSampling.t)
  : ThompsonSampling.t :=
  if Qeq_bool reward 1 then
    ThompsonSampling.set_alpha
      (alter (fun a => a + 1) k (ThompsonSampling.alpha s)) s
  else
    ThompsonSampling.set_beta
      (alter (fun b => b + 1) k (ThompsonSampling.beta s)) s.

(** How many rewards of a list are equal to [1], and how many are not. *)
Definition successes (rs : list Q) : Z :=
  len (List.filter (fun r => Qeq_bool r 1) rs).
Definition failures (rs : list Q) : Z :=
  len (List.filter (fun r => negb (Qeq_bool r 1)) rs).

(** [s] is what the calls [hist] make of a fresh object. *)
Definition ts_tracks (hist : list (Z * Q)) (s : ThompsonSampling.t) : Prop :=
  ts_wf s /\
  forall a, 0 <= a < len (ThompsonSampling.true_means s) ->
    ThompsonSampling.alpha s !! Z.to_nat a = Some (1 + successes (rewards_to a hist)) /\
    ThompsonSampling.beta s !! Z.to_nat a = Some (1 + failures (rewards_to a hist)).

Definition ts_updates (l : list (Z * Q)) : M (world ThompsonSampling.t) unit :=
  call_each (fun c => ThompsonSampling.update (fst c) (snd c)) l.

(** The average reward of [ThompsonSampling.report] as the code computes
    it, [sum(alpha) / (sum(alpha) + sum(beta))]. *)
Definition ts_avg_reward (al be : list Z) : Q :=
  (inject_Z (sumZ al) / inject_Z (sumZ al + sumZ be))%Q.

(** An [EpsilonGreedy] object on which [experiment] can run: at least one
    arm, and no negative count. *)
Definition eg_ready (s : EpsilonGreedy.t) : Prop :=
  eg_wf s /\ EpsilonGreedy.true_means s <> [] /\
  Forall (fun c => 0 <= c) (EpsilonGreedy.action_counts s).

(** A [ThompsonSampling] object on which [experiment] can run: at least
    one arm, and positive shape parameters. *)
Definition ts_ready (s : ThompsonSampling.t) : Prop :=
  ts_wf s /\ ThompsonSampling.true_means s <> [] /\
  Forall (fun a => 0 < a) (ThompsonSampling.alpha s) /\
  Forall (fun b => 0 < b) (ThompsonSampling.beta s).

(** The state after some more draws from the generator. *)
Definition drawn_by {T} (k : nat) (w : world T) : world T :=
  World (self w) (gen w) (calls w + k).

(** What the greedy branch of [EpsilonGreedy.pull] returns:
    [action_values.index(max(action_values))]. *)
Definition index_of_max (l : list Q) : res Z :=
  match py_max l with
  | Ok m => index l m
  | Raise e => Raise e
  end.

(** The element expression of the comprehension in
    [ThompsonSampling.pull]. *)
Definition ts_sample (i : Z) : M (world ThompsonSampling.t) Q :=
  let* s := get_self in
  let* a := lift (getitem (ThompsonSampling.alpha s) i) in
  let* b := lift (getitem (ThompsonSampling.beta s) i) in
  random_betavariate a b.

(** A method keeps the part [f] of the object, and the generator, whether
    it returns or raises. *)
Definition keeps {T X A} (f : T -> X) (m : M (world T) A) : Prop :=
  forall w, f (self (snd (m w))) = f (self w) /\ gen (snd (m w)) = gen w.

(** The calls a client can make on a policy. *)
Inductive method_call : Type :=
| CallPull
| CallUpdate (arm : Z) (reward : Q)
| CallExperiment (num_trials : Z)
| CallReport.

Definition eg_call (c : method_call) : M (world EpsilonGreedy.t) unit :=
  match c with
  | CallPull => let* _ := EpsilonGreedy.pull in ret tt
  | CallUpdate arm reward => EpsilonGreedy.update arm reward
  | CallExperiment num_trials => let* _ := EpsilonGreedy.experiment num_trials in ret tt
  | CallReport => let* _ := EpsilonGreedy.report in ret tt
  end.

Definition ts_call (c : method_call) : M (world ThompsonSampling.t) unit :=
  match c with
  | CallPull => let* _ := ThompsonSampling.pull in ret tt
  | CallUpdate arm reward => ThompsonSampling.update arm reward
  | CallExperiment num_trials => let* _ := ThompsonSampling.experiment num_trials in ret tt
  | CallReport => let* _ := ThompsonSampling.report in ret tt
  end.

(** A client that makes the calls of a list one after the other and goes
    on after an exception. *)
Fixpoint perform {T} (call : method_call -> M (world T) unit)
    (cs : list method_call) (w : world T) : world T :=
  match cs with
  | [] => w
  | c :: t => perform call t (snd (call c w))
  end.

(** ** Trials *)

(** A run of trials, one after the other: [pull] selects an arm, the reward
    is read from [true_means] at that arm, and [update] is called with both.
    The list records the arm and the reward of each trial. *)
Inductive trials {T} (pull : M (world T) Z) (update : Z -> Q -> M (world T) unit)
    (true_means : T -> list Q) : world T -> list (Z * Q) -> world T -> Prop :=
| trials_nil w : trials pull update true_means w [] w
| trials_cons w arm w1 reward w2 tr w3 :
    pull w = (Ok arm, w1) ->
    getitem (true_means (self w1)) arm = Ok reward ->
    update arm reward w1 = (Ok tt, w2) ->
    trials pull update true_means w2 tr w3 ->
    trials pull update true_means w ((arm, reward) :: tr) w3.

(** The trace of a run: as many trials as asked for, each reward the true
    mean of its arm. *)
Definition trace_of (true_means : list Q) (num_trials : Z) (tr : list (Z * Q)) : Prop :=
  len tr = num_trials /\
  Forall (fun c => 0 <= fst c < len true_means /\
                   true_means !! Z.to_nat (fst c) = Some (snd c) /\
                   In (snd c) true_means) tr.

(** The body of the loop of [experiment], the same in both classes. *)
Definition trial {T} (pull : M (world T) Z) (update : Z -> Q -> M (world T) unit)
    (true_means : T -> list Q) (rewards : list Q) : M (world T) (list Q) :=
  let* arm := pull in
  let* s := get_self in
  let* reward := lift (getitem (true_means s) arm) in
  let* _ := update arm reward in
  ret (rewards ++ [reward]).

(** ** Further notions *)

(** A method keeps a property of the object, whether it returns or
    raises. *)
Definition preserves {T A} (P : T -> Prop) (m : M (world T) A) : Prop :=
  forall w, P (self w) -> P (self (snd (m w))).

(** What every call keeps true of an [EpsilonGreedy] object: lists of the
    length of [true_means], and no negative count. *)
Definition eg_sound (s : EpsilonGreedy.t) : Prop :=
  eg_wf s /\ Forall (fun c => 0 <= c) (EpsilonGreedy.action_counts s).

(** What every call keeps true of a [ThompsonSampling] object: lists of the
    length of [true_means], shape parameters at least [1], and counts that
    are all zero. *)
Definition ts_sound (s : ThompsonSampling.t) : Prop :=
  ts_wf s /\
  Forall (fun a => 1 <= a) (ThompsonSampling.alpha s) /\
  Forall (fun b => 1 <= b) (ThompsonSampling.beta s).

(** The estimates of an [EpsilonGreedy] object are exact: an arm never
    updated has count and value zero, an arm updated has its true mean as
    value. *)
Definition eg_exact (s : EpsilonGreedy.t) : Prop :=
  eg_sound s /\
  forall k c v t,
    EpsilonGreedy.action_counts s !! k = Some c ->
    EpsilonGreedy.action_values s !! k = Some v ->
    EpsilonGreedy.true_means s !! k = Some t ->
    (c = 0 /\ (v == 0)%Q) \/ (0 < c /\ (v == t)%Q).

(** In a [ThompsonSampling] object, [beta] has not moved on the arms whose
    true mean is [1], and [alpha] has not moved on the others. *)
Definition ts_split (s : ThompsonSampling.t) : Prop :=
  ts_wf s /\
  forall k t,
    ThompsonSampling.true_means s !! k = Some t ->
    (Qeq_bool t 1 = true -> ThompsonSampling.beta s !! k = Some 1) /\
    (Qeq_bool t 1 = false -> ThompsonSampling.alpha s !! k = Some 1).

(** An [EpsilonGreedy] object that has only ever pulled its first arm: the
    counts and values of the other arms are zero, and the first value is not
    negative. *)
Definition eg_first_only (t0 : Q) (rest : list Q) (c : Z) (s : EpsilonGreedy.t) : Prop :=
  EpsilonGreedy.true_means s = t0 :: rest /\
  (EpsilonGreedy.epsilon s == 0)%Q /\
  EpsilonGreedy.action_counts s = c :: replicate (length rest) 0 /\
  0 <= c /\
  exists v, EpsilonGreedy.action_values s = v :: replicate (length rest) 0%Q /\
            (0 <= v)%Q.

(** The line that [store_rewards_to_csv] writes for a reward of each
    policy. *)
Definition epsilon_greedy_line (reward : Q) : list Visualization.cell :=
  [Visualization.Str "EpsilonGreedy"; Visualization.Num reward;
   Visualization.Str "Epsilon-Greedy"].

Definition thompson_line (reward : Q) : list Visualization.cell :=
  [Visualization.Str "ThompsonSampling"; Visualization.Num reward;
   Visualization.Str "Thompson Sampling"].

(** Reading the table back: the numbers in the [Reward] column of the lines
    whose [Bandit] column is [bandit], in order. *)
Fixpoint rewards_of (bandit : string) (file : list (list Visualization.cell)) : list Q :=
  match file with
  | [] => []
  | [Visualization.Str b; Visualization.Num r; _] :: t =>
      if String.eqb b bandit then r :: rewards_of bandit t else rewards_of bandit t
  | _ :: t => rewards_of bandit t
  end.

(** * Properties *)

(** ** The monad *)

Lemma bind_Ok {St A B} (m : M St A) (k : A -> M St B) s a s' :
  m s = (Ok a, s') -> bind m k s = k a s'.
Proof. unfold bind. now intros ->. Qed.

Lemma bind_Raise {St A B} (m : M St A) (k : A -> M St B) s e s' :
  m s = (Raise e, s') -> bind m k s = (Raise e, s').
Proof. unfold bind. now intros ->. Qed.

Lemma call_each_app {St A} (f : A -> M St unit) l1 l2 s :
  call_each f (l1 ++ l2) s = bind (call_each f l1) (fun _ => call_each f l2) s.
Proof.
  revert s. induction l1 as [|x l1 IH]; intros s; simpl.
  - reflexivity.
  - unfold bind in *. destruct (f x s) as [[[]|e] s1]; [apply IH | reflexivity].
Qed.

(** ** List indexing *)

Lemma py_index_in_range n i :
  0 <= i < Z.of_nat n -> py_index n i = Ok (Z.to_nat i).
Proof.
  intros H. unfold py_index.
  destruct (Z.ltb_spec i 0); [lia|].
  destruct (Z.ltb_spec i 0); [lia|].
  destruct (Z.leb_spec (Z.of_nat n) i); [lia|]. reflexivity.
Qed.

Lemma py_index_negative n i :
  - Z.of_nat n <= i < 0 -> py_index n i = Ok (Z.to_nat (i + Z.of_nat n)).
Proof.
  intros H. unfold py_index.
  destruct (Z.ltb_spec i 0); [|lia].
  destruct (Z.ltb_spec (i + Z.of_nat n) 0); [lia|].
  destruct (Z.leb_spec (Z.of_nat n) (i + Z.of_nat n)); [lia|]. reflexivity.
Qed.

Lemma py_index_outside n i :
  i < - Z.of_nat n \/ Z.of_nat n <= i -> py_index n i = Raise IndexError.
Proof.
  intros H. unfold py_index.
  destruct (Z.ltb_spec i 0).
  - destruct (Z.ltb_spec (i + Z.of_nat n) 0); [reflexivity|lia].
  - destruct (Z.ltb_spec i 0); [lia|].
    destruct (Z.leb_spec (Z.of_nat n) i); [reflexivity|lia].
Qed.

Lemma py_index_lt n i k : py_index n i = Ok k -> (k < n)%nat.
Proof.
  unfold py_index.
  destruct (Z.ltb_spec i 0);
    match goal with |- context [?j <? 0] => destruct (Z.ltb_spec j 0) end;
    try discriminate;
    match goal with |- context [?a <=? ?b] => destruct (Z.leb_spec a b) end;
    try discriminate; simpl; intros [= <-]; lia.
Qed.

Lemma getitem_Ok {A} (l : list A) i k x :
  py_index (length l) i = Ok k -> l !! k = Some x -> getitem l i = Ok x.
Proof. unfold getitem. now intros -> ->. Qed.

Lemma setitem_Ok {A} (l : list A) i k x :
  py_index (length l) i = Ok k -> setitem l i x = Ok (<[k:=x]> l).
Proof. unfold setitem. now intros ->. Qed.

Lemma getitem_outside {A} (l : list A) i :
  i < - len l \/ len l <= i -> getitem l i = Raise IndexError.
Proof. intros H. unfold getitem. now rewrite py_index_outside. Qed.

Lemma getitem_in_range {A} (l : list A) i :
  0 <= i < len l -> exists x, l !! Z.to_nat i = Some x /\ getitem l i = Ok x.
Proof.
  intros H. destruct (lookup_lt_is_Some_2 l (Z.to_nat i)) as [x Hx].
  { unfold len in H. lia. }
  exists x. split; [assumption|].
  eapply getitem_Ok; [|eassumption]. now apply py_index_in_range.
Qed.

Lemma sumQ_snoc l x : sumQ (l ++ [x]) = (sumQ l + x)%Q.
Proof. unfold sumQ. now rewrite fold_left_app. Qed.

Lemma rewards_to_app a l1 l2 :
  rewards_to a (l1 ++ l2) = rewards_to a l1 ++ rewards_to a l2.
Proof.
  induction l1 as [|[arm r] l1 IH]; simpl; [reflexivity|].
  destruct (arm =? a); simpl; now rewrite IH.
Qed.

(** ** [max] and [index] *)

Lemma py_max_nonempty l : l <> [] -> exists m, py_max l = Ok m.
Proof. destruct l as [|x t]; [congruence|]. intros _. simpl. eauto. Qed.

Lemma max_step_spec (m y : Q) :
  (max_step m y = m /\ (y <= m)%Q) \/ (max_step m y = y /\ (m < y)%Q).
Proof.
  unfold max_step. destruct (m ?= y)%Q eqn:E.
  - left. apply Qeq_alt in E. split; [reflexivity | lra].
  - right. apply Qlt_alt in E. split; [reflexivity | exact E].
  - left. apply Qgt_alt in E. split; [reflexivity | lra].
Qed.

Lemma fold_max_spec (t : list Q) : forall x,
  let m := fold_left max_step t x in
  (x <= m)%Q /\
  (forall j y, t !! j = Some y -> (y <= m)%Q) /\
  (m = x \/ exists k, t !! k = Some m).
Proof.
  induction t as [|z t IH]; intros x; simpl.
  - split; [lra|]. split; [|now left]. intros j y H. destruct j; discriminate.
  - destruct (IH (max_step x z)) as (Hle & Hall & Hin).
    destruct (max_step_spec x z) as [[E Hz]|[E Hz]]; rewrite E in *.
    + split; [exact Hle|]. split.
      * intros [|j] y H; simpl in H; [injection H as <-; lra | eauto].
      * destruct Hin as [->|[k Hk]]; [now left | right; now exists (S k)].
    + split; [lra|]. split.
      * intros [|j] y H; simpl in H; [injection H as <-; lra | eauto].
      * right. destruct Hin as [->|[k Hk]]; [now exists 0%nat | now exists (S k)].
Qed.

(** [max(l)] is an element of [l] that no element exceeds. *)
Lemma py_max_spec (l : list Q) (m : Q) :
  py_max l = Ok m ->
  (exists k, l !! k = Some m) /\ (forall j y, l !! j = Some y -> (y <= m)%Q).
Proof.
  destruct l as [|x t]; simpl; [discriminate|]. intros [= <-].
  destruct (fold_max_spec t x) as (Hle & Hall & Hin). split.
  - destruct Hin as [->|[k Hk]]; [now exists 0%nat | now exists (S k)].
  - intros [|j] y H; simpl in H; [injection H as <-; exact Hle | eauto].
Qed.

(** [l.index(x)] is the first position holding a value equal to [x]. *)
Lemma index_from_spec (l : list Q) (x : Q) : forall i0 k0 y0,
  l !! k0 = Some y0 -> (y0 == x)%Q ->
  exists k y,
    index_from l x i0 = Ok (i0 + Z.of_nat k) /\
    l !! k = Some y /\ (y == x)%Q /\
    (forall j z, (j < k)%nat -> l !! j = Some z -> ~ (z == x)%Q).
Proof.
  induction l as [|z l IH]; intros i0 k0 y0 Hk0 Hy0.
  - destruct k0; discriminate.
  - simpl. destruct (Qeq_bool z x) eqn:E.
    + apply Qeq_bool_iff in E. exists 0%nat, z.
      rewrite Z.add_0_r. repeat split; auto. intros j ? Hj. lia.
    + assert (Hz : ~ (z == x)%Q).
      { intros H. apply Qeq_bool_iff in H. congruence. }
      destruct k0 as [|k0]; simpl in Hk0.
      { injection Hk0 as ->. contradiction. }
      destruct (IH (i0 + 1) k0 y0 Hk0 Hy0) as (k & y & Hi & Hk & Hy & Hfirst).
      exists (S k), y. repeat split; auto.
      * rewrite Hi. f_equal. lia.
      * intros [|j] w Hj Hw; simpl in Hw; [injection Hw as <-; exact Hz|].
        apply (Hfirst j w); [lia | exact Hw].
Qed.

(** [l.index(max(l))] on a non-empty list: the smallest index that attains
    the maximum. *)
Lemma index_max_first (l : list Q) :
  l <> [] ->
  exists m k v,
    py_max l = Ok m /\ index l m = Ok (Z.of_nat k) /\
    l !! k = Some v /\
    (forall j y, l !! j = Some y -> (y <= v)%Q) /\
    (forall j y, (j < k)%nat -> l !! j = Some y -> (y < v)%Q).
Proof.
  intros Hne. destruct (py_max_nonempty l Hne) as [m Hm].
  destruct (py_max_spec l m Hm) as [[k0 Hk0] Hall].
  destruct (index_from_spec l m 0 k0 m Hk0 ltac:(reflexivity))
    as (k & v & Hi & Hk & Hv & Hfirst).
  exists m, k, v. repeat split; auto.
  - intros j y Hj. specialize (Hall j y Hj). lra.
  - intros j y Hlt Hj. specialize (Hall j y Hj).
    specialize (Hfirst j y Hlt Hj).
    destruct (Qlt_le_dec y v) as [|Hge]; [assumption|].
    exfalso. apply Hfirst. lra.
Qed.

(** ** EpsilonGreedy: [update] *)

Section EpsilonGreedyUpdate.
Import EpsilonGreedy.

Lemma eg_update_Ok s g n arm reward k c v :
  length (action_counts s) = length (action_values s) ->
  py_index (length (action_counts s)) arm = Ok k ->
  action_counts s !! k = Some c ->
  action_values s !! k = Some v ->
  c + 1 <> 0 ->
  update arm reward (World s g n) = (Ok tt, World (eg_updated k c v reward s) g n).
Proof.
  intros Hlen Hk Hc Hv Hnz.
  assert (Hk' : (k < length (action_counts s))%nat) by now apply py_index_lt in Hk.
  unfold update.
  rewrite (bind_Ok get_self _ _ s (World s g n)) by reflexivity.
  rewrite (bind_Ok _ _ _ c (World s g n))
    by (unfold lift; now rewrite (getitem_Ok _ _ _ _ Hk Hc)).
  rewrite (bind_Ok _ _ _ (<[k:=c + 1]> (action_counts s)) (World s g n))
    by (unfold lift; now rewrite (setitem_Ok _ _ _ _ Hk)).
  set (s1 := set_action_counts (<[k:=c + 1]> (action_counts s)) s).
  rewrite (bind_Ok _ _ _ tt (World s1 g n)) by reflexivity.
  rewrite (bind_Ok get_self _ _ s1 (World s1 g n)) by reflexivity.
  assert (Hk1 : py_index (length (action_counts s1)) arm = Ok k).
  { unfold s1, set_action_counts, action_counts; simpl.
    rewrite length_insert. exact Hk. }
  assert (Hc1 : action_counts s1 !! k = Some (c + 1)).
  { unfold s1, set_action_counts, action_counts; simpl.
    now apply list_lookup_insert_eq. }
  rewrite (bind_Ok _ _ _ (c + 1) (World s1 g n))
    by (unfold lift; now rewrite (getitem_Ok _ _ _ _ Hk1 Hc1)).
  assert (Hkv : py_index (length (action_values s1)) arm = Ok k).
  { unfold s1, set_action_counts; simpl. now rewrite <- Hlen. }
  assert (Hv1 : action_values s1 !! k = Some v) by exact Hv.
  rewrite (bind_Ok _ _ _ v (World s1 g n))
    by (unfold lift; now rewrite (getitem_Ok _ _ _ _ Hkv Hv1)).
  destruct (Z.eqb_spec (c + 1) 0) as [|_]; [contradiction|].
  rewrite (bind_Ok _ _ _ (1 / inject_Z (c + 1))%Q (World s1 g n)) by reflexivity.
  rewrite (bind_Ok _ _ _ v (World s1 g n))
    by (unfold lift; now rewrite (getitem_Ok _ _ _ _ Hkv Hv1)).
  rewrite (bind_Ok _ _ _ (<[k := (v + 1 / inject_Z (c + 1) * (reward - v))%Q]> (action_values s1))
             (World s1 g n))
    by (unfold lift; now rewrite (setitem_Ok _ _ _ _ Hkv)).
  reflexivity.
Qed.

Lemma eg_wf_init tm eps : eg_wf (__init__ tm eps).
Proof.
  unfold eg_wf, __init__, action_counts, action_values, true_means; simpl.
  now rewrite !length_replicate.
Qed.

Lemma eg_tracks_init tm eps : eg_tracks [] (__init__ tm eps).
Proof.
  split; [apply eg_wf_init|].
  intros a Ha. exists 0%Q.
  unfold __init__, action_counts, action_values, true_means, len in *; simpl in *.
  split; [|split].
  - apply lookup_replicate_2. lia.
  - apply lookup_replicate_2. lia.
  - reflexivity.
Qed.

Lemma len_snoc {A} (l : list A) x : len (l ++ [x]) = len l + 1.
Proof. unfold len. rewrite length_app. simpl. lia. Qed.

Lemma len_nonneg {A} (l : list A) : 0 <= len l.
Proof. unfold len. lia. Qed.

(** One step of the running mean keeps [value * count == sum]. *)
Lemma running_mean_step (v S r : Q) (c : Z) :
  0 <= c ->
  (v * inject_Z c == S)%Q ->
  ((v + 1 / inject_Z (c + 1) * (r - v)) * inject_Z (c + 1) == S + r)%Q.
Proof.
  intros Hc HS.
  assert (Hnz : ~ (inject_Z (c + 1) == 0)%Q).
  { change 0%Q with (inject_Z 0). rewrite inject_Z_injective. lia. }
  rewrite <- HS. rewrite inject_Z_plus in *.
  change (inject_Z 1) with 1%Q in *. field. exact Hnz.
Qed.

Lemma eg_tracks_update hist s g n arm reward :
  eg_tracks hist s ->
  0 <= arm < len (true_means s) ->
  exists v,
    action_counts s !! Z.to_nat arm = Some (len (rewards_to arm hist)) /\
    action_values s !! Z.to_nat arm = Some v /\
    let s' := eg_updated (Z.to_nat arm) (len (rewards_to arm hist)) v reward s in
    update arm reward (World s g n) = (Ok tt, World s' g n) /\
    eg_tracks (hist ++ [(arm, reward)]) s'.
Proof.
  intros [[Hlc Hlv] Hall] Harm.
  destruct (Hall arm Harm) as (v & Hc & Hv & Hmean).
  exists v. split; [exact Hc|]. split; [exact Hv|]. intros s'. split.
  - apply eg_update_Ok; try assumption.
    + congruence.
    + rewrite Hlc. now apply py_index_in_range.
    + pose proof (len_nonneg (rewards_to arm hist)). lia.
  - split.
    + unfold eg_wf, s', eg_updated, set_action_values, set_action_counts,
        action_counts, action_values, true_means in *; simpl.
      now rewrite !length_insert.
    + change (true_means s') with (true_means s).
      intros a Ha. rewrite rewards_to_app. simpl.
      change (action_counts s') with (<[Z.to_nat arm := len (rewards_to arm hist) + 1]> (action_counts s)).
      change (action_values s') with
        (<[Z.to_nat arm := (v + 1 / inject_Z (len (rewards_to arm hist) + 1) * (reward - v))%Q]> (action_values s)).
      destruct (Z.eqb_spec arm a) as [->|Hne].
      * eexists. split; [|split].
        -- rewrite len_snoc. apply list_lookup_insert_eq.
           unfold len in *. lia.
        -- apply list_lookup_insert_eq. unfold len in *. lia.
        -- rewrite len_snoc, sumQ_snoc.
           apply running_mean_step; [apply len_nonneg | exact Hmean].
      * destruct (Hall a Ha) as (va & Hca & Hva & Hma).
        exists va. rewrite app_nil_r.
        rewrite !list_lookup_insert_ne by lia. auto.
Qed.

Lemma eg_updates_tracks l : forall hist s g n,
  eg_tracks hist s ->
  arms_in_range (length (true_means s)) l ->
  exists s',
    eg_updates l (World s g n) = (Ok tt, World s' g n) /\
    eg_tracks (hist ++ l) s' /\
    true_means s' = true_means s.
Proof.
  induction l as [|[arm r] l IH]; intros hist s g n Ht Hr.
  - exists s. rewrite app_nil_r. auto.
  - apply Forall_cons in Hr as [Harm Hr]. simpl in Harm.
    destruct (eg_tracks_update hist s g n arm r Ht Harm) as (v & _ & _ & Hup & Ht').
    destruct (IH _ _ g n Ht' Hr) as (s' & Hrun & Hfin & Htm).
    exists s'. split; [|split].
    + unfold eg_updates in *. simpl. erewrite bind_Ok; [exact Hrun | exact Hup].
    + now rewrite <- app_assoc in Hfin.
    + exact Htm.
Qed.

End EpsilonGreedyUpdate.

Section EpsilonGreedyMean.
Import EpsilonGreedy.

Lemma arms_in_range_app K l1 l2 :
  arms_in_range K (l1 ++ l2) <-> arms_in_range K l1 /\ arms_in_range K l2.
Proof. unfold arms_in_range. apply Forall_app. Qed.

Lemma mean_of_tracked (v : Q) (rs : list Q) :
  rs <> [] -> (v * inject_Z (len rs) == sumQ rs)%Q -> (v == mean rs)%Q.
Proof.
  intros Hne H. unfold mean. rewrite <- H. field.
  change 0%Q with (inject_Z 0). rewrite inject_Z_injective.
  destruct rs; [congruence | unfold len; simpl; lia].
Qed.

(** C1. Starting from a fresh [EpsilonGreedy] object, after any sequence of
    [update] calls on arms of [[0, K)] that passes at least one reward to
    arm [a], [action_values[a]] is the arithmetic mean of the rewards passed
    to [a], exactly, over the rationals; and each call [update(a, r)] of the
    sequence replaces the value [v] of arm [a] by [v + (r - v) / count],
    where [count] is the count of [a] after its increment. *)
Theorem eg_update_incremental_mean
    (tm : list Q) (eps : Q) (g : Random) (n : nat) (l : list (Z * Q)) (a : Z) :
  0 <= a < len tm ->
  arms_in_range (length tm) l ->
  rewards_to a l <> [] ->
  exists s',
    eg_updates l (World (__init__ tm eps) g n) = (Ok tt, World s' g n) /\
    (exists v, action_values s' !! Z.to_nat a = Some v /\
               (v == mean (rewards_to a l))%Q) /\
    (forall pre r post, l = pre ++ (a, r) :: post ->
       exists s1 s2 c v v',
         eg_updates pre (World (__init__ tm eps) g n) = (Ok tt, World s1 g n) /\
         update a r (World s1 g n) = (Ok tt, World s2 g n) /\
         eg_updates post (World s2 g n) = (Ok tt, World s' g n) /\
         action_counts s1 !! Z.to_nat a = Some c /\
         action_values s1 !! Z.to_nat a = Some v /\
         action_counts s2 !! Z.to_nat a = Some (c + 1) /\
         action_values s2 !! Z.to_nat a = Some v' /\
         (v' == v + (r - v) / inject_Z (c + 1))%Q).
Proof.
  intros Ha Hl Hne.
  pose proof (eg_tracks_init tm eps) as H0.
  destruct (eg_updates_tracks l [] _ g n H0 Hl) as (s' & Hrun & Ht & Htm).
  exists s'. split; [exact Hrun|]. split.
  - destruct Ht as [_ Hall]. rewrite Htm in Hall.
    destruct (Hall a Ha) as (v & _ & Hv & Hm).
    exists v. split; [exact Hv|]. now apply mean_of_tracked.
  - intros pre r post ->.
    apply arms_in_range_app in Hl as [Hpre Hpost].
    apply Forall_cons in Hpost as [Harm Hpost].
    destruct (eg_updates_tracks pre [] _ g n H0 Hpre) as (s1 & Hrun1 & Ht1 & Htm1).
    simpl in Ht1.
    assert (Ha1 : 0 <= a < len (true_means s1)) by (rewrite Htm1; exact Ha).
    assert (Hpost1 : arms_in_range (length (true_means s1)) post)
      by (rewrite Htm1; exact Hpost).
    destruct (eg_tracks_update pre s1 g n a r Ht1 Ha1) as (v & Hc & Hv & Hup & Ht2).
    set (c := len (rewards_to a pre)) in *.
    set (s2 := eg_updated (Z.to_nat a) c v r s1) in *.
    destruct (eg_updates_tracks post _ s2 g n Ht2 Hpost1) as (s3 & Hrun3 & _ & _).
    assert (s3 = s') as ->.
    { unfold eg_updates in *. rewrite call_each_app in Hrun.
      rewrite (bind_Ok _ _ _ _ _ Hrun1) in Hrun. simpl in Hrun.
      rewrite (bind_Ok _ _ _ _ _ Hup) in Hrun. congruence. }
    assert (Hk : (Z.to_nat a < length (action_counts s1))%nat).
    { apply lookup_lt_Some in Hc. exact Hc. }
    assert (Hkv : (Z.to_nat a < length (action_values s1))%nat).
    { apply lookup_lt_Some in Hv. exact Hv. }
    exists s1, s2, c, v, (v + 1 / inject_Z (c + 1) * (r - v))%Q.
    repeat split; try assumption.
    + now apply list_lookup_insert_eq.
    + now apply list_lookup_insert_eq.
    + field. change 0%Q with (inject_Z 0). rewrite inject_Z_injective.
      pose proof (len_nonneg (rewards_to a pre)). unfold c. lia.
Qed.

Lemma eg_update_incremental_mean_witness :
  exists s',
    eg_updates [(1, 4%Q); (0, 1%Q); (1, 1%Q)]
      (World (__init__ [1; 2]%Q 0%Q) constant_gen 0) = (Ok tt, World s' constant_gen 0) /\
    exists v, action_values s' !! 1%nat = Some v /\ (v == 5 # 2)%Q.
Proof.
  destruct (eg_update_incremental_mean [1; 2]%Q 0%Q constant_gen 0
              [(1, 4%Q); (0, 1%Q); (1, 1%Q)] 1) as (s' & Hrun & Hmean & _).
  - unfold len; simpl; lia.
  - repeat constructor; simpl; lia.
  - simpl. discriminate.
  - exists s'. split; [exact Hrun | exact Hmean].
Defined.

End EpsilonGreedyMean.

(** ** ThompsonSampling: [update] *)

Section ThompsonSamplingUpdate.
Import ThompsonSampling.

(** [l[k] = f(l[k])] is [alter f k l]. *)
Lemma insert_as_alter {A} (f : A -> A) (l : list A) k x :
  l !! k = Some x -> <[k := f x]> l = alter f k l.
Proof.
  revert k. induction l as [|y l IH]; intros [|k] H; simpl in *; try discriminate.
  - now injection H as ->.
  - f_equal. now apply IH.
Qed.

Lemma ts_update_Ok s g n arm reward k :
  length (alpha s) = length (beta s) ->
  py_index (length (alpha s)) arm = Ok k ->
  update arm reward (World s g n) = (Ok tt, World (ts_updated k reward s) g n).
Proof.
  intros Hlen Hk.
  assert (Hlt : (k < length (alpha s))%nat) by now apply py_index_lt in Hk.
  destruct (lookup_lt_is_Some_2 (alpha s) k Hlt) as [a Ha].
  destruct (lookup_lt_is_Some_2 (beta s) k ltac:(lia)) as [b Hb].
  unfold update, ts_updated.
  rewrite (bind_Ok get_self _ _ s (World s g n)) by reflexivity.
  destruct (Qeq_bool reward 1).
  - rewrite (bind_Ok _ _ _ a (World s g n))
      by (unfold lift; now rewrite (getitem_Ok _ _ _ _ Hk Ha)).
    rewrite (bind_Ok _ _ _ (<[k:=a + 1]> (alpha s)) (World s g n))
      by (unfold lift; now rewrite (setitem_Ok _ _ _ _ Hk)).
    unfold set_self; simpl.
    now rewrite (insert_as_alter (fun a => a + 1) _ _ _ Ha).
  - rewrite Hlen in Hk.
    rewrite (bind_Ok _ _ _ b (World s g n))
      by (unfold lift; now rewrite (getitem_Ok _ _ _ _ Hk Hb)).
    rewrite (bind_Ok _ _ _ (<[k:=b + 1]> (beta s)) (World s g n))
      by (unfold lift; now rewrite (setitem_Ok _ _ _ _ Hk)).
    unfold set_self; simpl.
    now rewrite (insert_as_alter (fun b => b + 1) _ _ _ Hb).
Qed.

Lemma ts_wf_init tm : ts_wf (__init__ tm).
Proof.
  unfold ts_wf, __init__, alpha, beta, true_means; simpl.
  now rewrite !length_replicate.
Qed.

Lemma ts_tracks_init tm : ts_tracks [] (__init__ tm).
Proof.
  split; [apply ts_wf_init|].
  intros a Ha.
  unfold __init__, alpha, beta, true_means, len in *; simpl in *.
  split; apply lookup_replicate_2; lia.
Qed.

Lemma successes_snoc rs r :
  successes (rs ++ [r]) = successes rs + (if Qeq_bool r 1 then 1 else 0).
Proof.
  unfold successes, len. rewrite List.filter_app, length_app. simpl.
  destruct (Qeq_bool r 1); simpl; lia.
Qed.

Lemma failures_snoc rs r :
  failures (rs ++ [r]) = failures rs + (if Qeq_bool r 1 then 0 else 1).
Proof.
  unfold failures, len. rewrite List.filter_app, length_app. simpl.
  destruct (Qeq_bool r 1); simpl; lia.
Qed.

Lemma successes_failures rs : successes rs + failures rs = len rs.
Proof.
  unfold successes, failures, len.
  induction rs as [|r rs IH]; simpl; [reflexivity|].
  destruct (Qeq_bool r 1); simpl; lia.
Qed.

Lemma ts_tracks_update hist s g n arm reward :
  ts_tracks hist s ->
  0 <= arm < len (true_means s) ->
  let s' := ts_updated (Z.to_nat arm) reward s in
  update arm reward (World s g n) = (Ok tt, World s' g n) /\
  ts_tracks (hist ++ [(arm, reward)]) s'.
Proof.
  intros [[Hla Hlb] Hall] Harm s'. split.
  - apply ts_update_Ok; [congruence|].
    rewrite Hla. now apply py_index_in_range.
  - assert (Htm : true_means s' = true_means s).
    { unfold s', ts_updated. now destruct (Qeq_bool reward 1). }
    split.
    + unfold ts_wf. rewrite Htm. unfold s', ts_updated.
      destruct (Qeq_bool reward 1); simpl; rewrite ?length_alter; auto.
    + rewrite Htm. intros a Ha. rewrite rewards_to_app. simpl.
      destruct (Hall a Ha) as [Hal Hbe].
      destruct (Hall arm Harm) as [Hal' Hbe'].
      unfold s', ts_updated.
      destruct (Z.eqb_spec arm a) as [->|Hne].
      * rewrite successes_snoc, failures_snoc.
        destruct (Qeq_bool reward 1); simpl; split;
          rewrite ?list_lookup_alter_eq, ?Hal, ?Hbe; simpl;
          try reflexivity; f_equal; lia.
      * rewrite app_nil_r.
        destruct (Qeq_bool reward 1); simpl; split;
          rewrite ?list_lookup_alter_ne by lia; assumption.
Qed.

Lemma ts_updates_tracks l : forall hist s g n,
  ts_tracks hist s ->
  arms_in_range (length (true_means s)) l ->
  exists s',
    ts_updates l (World s g n) = (Ok tt, World s' g n) /\
    ts_tracks (hist ++ l) s' /\
    true_means s' = true_means s.
Proof.
  induction l as [|[arm r] l IH]; intros hist s g n Ht Hr.
  - exists s. rewrite app_nil_r. auto.
  - apply Forall_cons in Hr as [Harm Hr]. simpl in Harm.
    destruct (ts_tracks_update hist s g n arm r Ht Harm) as (Hup & Ht').
    assert (Htm : true_means (ts_updated (Z.to_nat arm) r s) = true_means s).
    { unfold ts_updated. now destruct (Qeq_bool r 1). }
    rewrite <- Htm in Hr.
    destruct (IH _ _ g n Ht' Hr) as (s' & Hrun & Hfin & Htm').
    exists s'. split; [|split].
    + unfold ts_updates in *. simpl. erewrite bind_Ok; [exact Hrun | exact Hup].
    + now rewrite <- app_assoc in Hfin.
    + congruence.
Qed.

(** C2. Starting from a fresh [ThompsonSampling] object ([alpha] and [beta]
    all [1]), after any sequence of [update] calls on arms of [[0, K)],
    [alpha[a] - 1] is the number of calls to arm [a] whose reward is equal to
    [1], [beta[a] - 1] the number of calls to arm [a] whose reward is not, and
    [alpha[a] + beta[a] - 2] the number of calls to arm [a]. *)
Theorem ts_update_conjugate_counts
    (tm : list Q) (g : Random) (n : nat) (l : list (Z * Q)) (a : Z) :
  0 <= a < len tm ->
  arms_in_range (length tm) l ->
  exists s' al be,
    ts_updates l (World (__init__ tm) g n) = (Ok tt, World s' g n) /\
    alpha s' !! Z.to_nat a = Some al /\
    beta s' !! Z.to_nat a = Some be /\
    al - 1 = successes (rewards_to a l) /\
    be - 1 = failures (rewards_to a l) /\
    al + be - 2 = len (rewards_to a l).
Proof.
  intros Ha Hl.
  destruct (ts_updates_tracks l [] _ g n (ts_tracks_init tm) Hl)
    as (s' & Hrun & [_ Hall] & Htm).
  rewrite Htm in Hall. destruct (Hall a Ha) as [Hal Hbe]. simpl in Hal, Hbe.
  exists s', (1 + successes (rewards_to a l)), (1 + failures (rewards_to a l)).
  pose proof (successes_failures (rewards_to a l)).
  repeat split; try assumption; lia.
Qed.

Lemma ts_update_conjugate_counts_witness :
  exists s' al be,
    ts_updates [(1, 1%Q); (0, 1%Q); (1, 3%Q); (1, 2 # 2)]
      (World (__init__ [0; 1]%Q) constant_gen 0) = (Ok tt, World s' constant_gen 0) /\
    alpha s' !! 1%nat = Some al /\ beta s' !! 1%nat = Some be /\
    al - 1 = 2 /\ be - 1 = 1 /\ al + be - 2 = 3.
Proof.
  destruct (ts_update_conjugate_counts [0; 1]%Q constant_gen 0
              [(1, 1%Q); (0, 1%Q); (1, 3%Q); (1, 2 # 2)] 1)
    as (s' & al & be & H).
  - unfold len; simpl; lia.
  - repeat constructor; simpl; lia.
  - exists s', al, be. exact H.
Defined.

End ThompsonSamplingUpdate.

(** ** ThompsonSampling: [report] *)

(** Sums of integers. *)

Lemma sumZ_acc (l : list Z) : forall a, fold_left Z.add l a = a + sumZ l.
Proof.
  unfold sumZ. induction l as [|x l IH]; intros a; simpl; [lia|].
  rewrite (IH (a + x)), (IH (0 + x)). lia.
Qed.

Lemma sumZ_cons x l : sumZ (x :: l) = x + sumZ l.
Proof. unfold sumZ at 1. simpl. apply sumZ_acc. Qed.

Lemma sumZ_pos (l : list Z) :
  l <> [] -> Forall (fun x => 0 < x) l -> 0 < sumZ l.
Proof.
  intros Hne H. induction H as [|x l Hx Hl IH]; [congruence|].
  rewrite sumZ_cons. destruct l as [|y l].
  - change (sumZ []) with 0. lia.
  - specialize (IH ltac:(discriminate)). lia.
Qed.

Section ThompsonSamplingReport.
Import ThompsonSampling.

(** C3. For every [ThompsonSampling] state, [report] changes nothing and
    computes [avg_reward = sum(alpha) / (sum(alpha) + sum(beta))], the sums
    taken over all arms, and [avg_regret = max(true_means) - avg_reward].
    These are the two numbers it returns; it raises only when the
    denominator is zero ([ZeroDivisionError]) or when there is no arm
    ([ValueError] from [max]), and it returns on every object with at least
    one arm and positive [alpha] and [beta]. *)
Theorem ts_report_values (w : world t) :
  exists r,
    report w = (r, w) /\
    match r with
    | Ok (avg_reward, avg_regret) =>
        avg_reward = ts_avg_reward (alpha (self w)) (beta (self w)) /\
        exists m, py_max (true_means (self w)) = Ok m /\
                  avg_regret = (m - avg_reward)%Q
    | Raise e =>
        (e = ZeroDivisionError /\
         sumZ (alpha (self w)) + sumZ (beta (self w)) = 0) \/
        (e = ValueError /\ true_means (self w) = [])
    end /\
    (ts_ready (self w) ->
       exists avg_reward avg_regret, r = Ok (avg_reward, avg_regret)).
Proof.
  unfold report.
  rewrite (bind_Ok get_self _ _ (self w) w) by reflexivity.
  destruct (Z.eqb_spec (sumZ (alpha (self w)) + sumZ (beta (self w))) 0) as [Hz|Hnz].
  - exists (Raise ZeroDivisionError). split; [reflexivity|]. split; [now left|].
    intros ([Hla Hlb] & Hne & Hpa & Hpb). exfalso.
    assert (Ha : 0 < sumZ (alpha (self w))).
    { apply sumZ_pos; [|exact Hpa]. intros E. rewrite E in Hla.
      destruct (true_means (self w)); [congruence | discriminate]. }
    assert (Hb : 0 < sumZ (beta (self w))).
    { apply sumZ_pos; [|exact Hpb]. intros E. rewrite E in Hlb.
      destruct (true_means (self w)); [congruence | discriminate]. }
    lia.
  - rewrite (bind_Ok _ _ _ (ts_avg_reward (alpha (self w)) (beta (self w))) w)
      by reflexivity.
    destruct (py_max (true_means (self w))) as [m|e] eqn:Hm.
    + rewrite (bind_Ok _ _ _ m w) by reflexivity.
      eexists. split; [reflexivity|]. split; [|eauto].
      split; [reflexivity|]. exists m. split; reflexivity.
    + rewrite (bind_Raise _ _ _ e w) by reflexivity.
      assert (He : e = ValueError /\ true_means (self w) = []).
      { destruct (true_means (self w)); [|discriminate].
        simpl in Hm. now injection Hm as <-. }
      exists (Raise e). split; [reflexivity|]. split; [now right|].
      intros (_ & Hne & _). destruct He as [_ He]. contradiction.
Qed.

Lemma ts_report_values_witness :
  exists avg_reward avg_regret,
    report (World (__init__ [1]%Q) constant_gen 0)
    = (Ok (avg_reward, avg_regret), World (__init__ [1]%Q) constant_gen 0) /\
    avg_reward = ts_avg_reward [1] [1].
Proof.
  destruct (ts_report_values (World (__init__ [1]%Q) constant_gen 0))
    as (r & Hr & Hval & Hret).
  destruct Hret as (avg_reward & avg_regret & ->).
  - split; [split; reflexivity|]. split; [discriminate|].
    split; simpl; repeat constructor; lia.
  - exists avg_reward, avg_regret. split; [exact Hr|]. apply Hval.
Defined.

(** C4, as the code has it. On [ThompsonSampling([0, 1])], [update(0, 1)]
    followed by [report()] leaves [alpha = [2, 1]] and [beta = [1, 1]] and
    computes [avg_reward = 3/5 = 0.6] and [avg_regret = 2/5 = 0.4]. *)
Theorem ts_scenario_update_report (g : Random) (n : nat) :
  exists s' avg_reward avg_regret,
    (let* _ := update 0 1%Q in report) (World (__init__ [0; 1]%Q) g n)
    = (Ok (avg_reward, avg_regret), World s' g n) /\
    alpha s' = [2; 1] /\ beta s' = [1; 1] /\
    (avg_reward == 6 # 10)%Q /\ (avg_regret == 4 # 10)%Q.
Proof.
  eexists _, _, _. split; [reflexivity|].
  repeat split.
Qed.

(** C4, as stated: the scenario does not yield [avg_reward = 0.5] and
    [avg_regret = 0.5]. *)
Lemma ts_scenario_not_one_half :
  ~ exists w' avg_reward avg_regret,
      (let* _ := update 0 1%Q in report) (World (__init__ [0; 1]%Q) constant_gen 0)
      = (Ok (avg_reward, avg_regret), w') /\
      (avg_reward == 5 # 10)%Q /\ (avg_regret == 5 # 10)%Q.
Proof.
  intros (w' & ar & rg & Hrun & Har & _).
  vm_compute in Hrun. injection Hrun as <- <- <-.
  vm_compute in Har. discriminate.
Qed.

End ThompsonSamplingReport.

(** ** Arm indices outside [[0, K)] *)

Lemma py_index_shift n i :
  - Z.of_nat n <= i < 0 -> py_index n i = py_index n (i + Z.of_nat n).
Proof.
  intros H. rewrite py_index_negative by exact H.
  symmetry. apply py_index_in_range. lia.
Qed.

Lemma eg_update_outside s g n arm reward :
  eg_wf s ->
  arm < - len (EpsilonGreedy.true_means s) \/ len (EpsilonGreedy.true_means s) <= arm ->
  EpsilonGreedy.update arm reward (World s g n) = (Raise IndexError, World s g n).
Proof.
  intros [Hlc _] Harm. unfold EpsilonGreedy.update.
  rewrite (bind_Ok get_self _ _ s (World s g n)) by reflexivity.
  apply bind_Raise. unfold lift. f_equal.
  apply getitem_outside. unfold len in *. now rewrite Hlc.
Qed.

Lemma ts_update_outside s g n arm reward :
  ts_wf s ->
  arm < - len (ThompsonSampling.true_means s) \/ len (ThompsonSampling.true_means s) <= arm ->
  ThompsonSampling.update arm reward (World s g n) = (Raise IndexError, World s g n).
Proof.
  intros [Hla Hlb] Harm. unfold ThompsonSampling.update.
  rewrite (bind_Ok get_self _ _ s (World s g n)) by reflexivity.
  destruct (Qeq_bool reward 1); apply bind_Raise; unfold lift; f_equal;
    apply getitem_outside; unfold len in *; [now rewrite Hla | now rewrite Hlb].
Qed.

(** [update] looks at its arm only through the normalised index. *)
Lemma eg_update_index_ext s g n arm arm' reward :
  eg_wf s ->
  py_index (length (EpsilonGreedy.true_means s)) arm
  = py_index (length (EpsilonGreedy.true_means s)) arm' ->
  EpsilonGreedy.update arm reward (World s g n)
  = EpsilonGreedy.update arm' reward (World s g n).
Proof.
  intros [Hlc Hlv] H.
  cbv beta iota delta [EpsilonGreedy.update bind get_self set_self lift ret raise
                         getitem setitem self gen calls].
  rewrite Hlc, H.
  destruct (py_index (length (EpsilonGreedy.true_means s)) arm') as [k|e] eqn:Hk;
    [|reflexivity].
  destruct (EpsilonGreedy.action_counts s !! k) as [c|]; [|reflexivity].
  change (EpsilonGreedy.action_counts
            (EpsilonGreedy.set_action_counts ?l s)) with l.
  change (EpsilonGreedy.action_values
            (EpsilonGreedy.set_action_counts ?l s)) with (EpsilonGreedy.action_values s).
  rewrite length_insert, Hlc, Hlv, H, Hk. reflexivity.
Qed.

Lemma ts_update_index_ext s g n arm arm' reward :
  ts_wf s ->
  py_index (length (ThompsonSampling.true_means s)) arm
  = py_index (length (ThompsonSampling.true_means s)) arm' ->
  ThompsonSampling.update arm reward (World s g n)
  = ThompsonSampling.update arm' reward (World s g n).
Proof.
  intros [Hla Hlb] H.
  cbv beta iota delta [ThompsonSampling.update bind get_self set_self lift ret raise
                         getitem setitem self gen calls].
  rewrite Hla, Hlb, H. reflexivity.
Qed.

(** C6, as the code has it. On an object whose lists have length [K],
    [update] with an arm index below [-K] or at least [K] raises
    [IndexError] and leaves every field as it was; an index of [[-K, 0)] is
    not rejected: it is treated as the arm [K + index]. *)
Theorem update_arm_index_outside
    (se : EpsilonGreedy.t) (st : ThompsonSampling.t)
    (g : Random) (n : nat) (arm : Z) (reward : Q) :
  eg_wf se -> ts_wf st ->
  let Ke := len (EpsilonGreedy.true_means se) in
  let Kt := len (ThompsonSampling.true_means st) in
  (arm < - Ke \/ Ke <= arm ->
     EpsilonGreedy.update arm reward (World se g n)
     = (Raise IndexError, World se g n)) /\
  (arm < - Kt \/ Kt <= arm ->
     ThompsonSampling.update arm reward (World st g n)
     = (Raise IndexError, World st g n)) /\
  (- Ke <= arm < 0 ->
     EpsilonGreedy.update arm reward (World se g n)
     = EpsilonGreedy.update (Ke + arm) reward (World se g n)) /\
  (- Kt <= arm < 0 ->
     ThompsonSampling.update arm reward (World st g n)
     = ThompsonSampling.update (Kt + arm) reward (World st g n)).
Proof.
  intros He Ht Ke Kt. repeat split.
  - now apply eg_update_outside.
  - now apply ts_update_outside.
  - intros H. apply eg_update_index_ext; [assumption|].
    rewrite (Z.add_comm Ke). now apply py_index_shift.
  - intros H. apply ts_update_index_ext; [assumption|].
    rewrite (Z.add_comm Kt). now apply py_index_shift.
Qed.

Lemma update_arm_index_outside_witness :
  EpsilonGreedy.update 2 5%Q (World (EpsilonGreedy.__init__ [1; 2]%Q 0%Q) constant_gen 0)
  = (Raise IndexError, World (EpsilonGreedy.__init__ [1; 2]%Q 0%Q) constant_gen 0) /\
  ThompsonSampling.update 2 5%Q (World (ThompsonSampling.__init__ [1; 2]%Q) constant_gen 0)
  = (Raise IndexError, World (ThompsonSampling.__init__ [1; 2]%Q) constant_gen 0).
Proof.
  destruct (update_arm_index_outside
              (EpsilonGreedy.__init__ [1; 2]%Q 0%Q) (ThompsonSampling.__init__ [1; 2]%Q)
              constant_gen 0 2 5%Q) as (He & Ht & _).
  - split; reflexivity.
  - split; reflexivity.
  - split; [apply He | apply Ht]; right; unfold len; simpl; lia.
Defined.

(** C6, as stated: [update(-1, 5)] on two arms is not an error; it counts
    for arm [1]. *)
Lemma update_negative_index_accepted :
  let we := World (EpsilonGreedy.__init__ [1; 2]%Q 0%Q) constant_gen 0 in
  let wt := World (ThompsonSampling.__init__ [1; 2]%Q) constant_gen 0 in
  fst (EpsilonGreedy.update (-1) 5%Q we) = Ok tt /\
  EpsilonGreedy.action_counts (self (snd (EpsilonGreedy.update (-1) 5%Q we))) = [0; 1] /\
  fst (ThompsonSampling.update (-1) 5%Q wt) = Ok tt /\
  ThompsonSampling.beta (self (snd (ThompsonSampling.update (-1) 5%Q wt))) = [1; 2].
Proof. repeat split. Qed.

(** ** [pull] *)

Lemma nonempty_length {A} (l : list A) : l <> [] <-> 0 < len l.
Proof. unfold len. destruct l; simpl; split; intros; try congruence; lia. Qed.

Section EpsilonGreedyPull.
Import EpsilonGreedy.

(** The two branches of [pull]. *)
Lemma eg_pull_greedy (w : world t) :
  (random_at (gen w) (calls w) ?= epsilon (self w))%Q <> Lt ->
  pull w = (index_of_max (action_values (self w)), drawn w).
Proof.
  intros Hcmp. unfold pull.
  rewrite (bind_Ok random_random _ _ _ (drawn w)) by reflexivity.
  rewrite (bind_Ok get_self _ _ (self w) (drawn w)) by reflexivity.
  cbv beta. unfold index_of_max.
  destruct (random_at (gen w) (calls w) ?= epsilon (self w))%Q; try congruence;
    unfold bind, lift; now destruct (py_max (action_values (self w))).
Qed.

Lemma eg_pull_explore (w : world t) :
  (random_at (gen w) (calls w) ?= epsilon (self w))%Q = Lt ->
  pull w = random_randint 0 (len (true_means (self w)) - 1) (drawn w).
Proof.
  intros Hcmp. unfold pull.
  rewrite (bind_Ok random_random _ _ _ (drawn w)) by reflexivity.
  rewrite (bind_Ok get_self _ _ (self w) (drawn w)) by reflexivity.
  cbv beta. now rewrite Hcmp.
Qed.

(** On an object with at least one arm, [pull] returns an arm. *)
Lemma eg_pull_arm (w : world t) :
  randint_in_range (gen w) -> eg_wf (self w) -> true_means (self w) <> [] ->
  exists arm k,
    pull w = (Ok arm, drawn_by k w) /\ 0 <= arm < len (true_means (self w)).
Proof.
  intros Hg [Hlc Hlv] Hne.
  assert (HK : 0 < len (true_means (self w))) by now apply nonempty_length.
  destruct (random_at (gen w) (calls w) ?= epsilon (self w))%Q eqn:E.
  2:{ rewrite eg_pull_explore by assumption. unfold random_randint.
      destruct (Z.ltb_spec (len (true_means (self w)) - 1) 0); [lia|].
      eexists _, 2%nat. split.
      - unfold drawn_by, drawn. simpl. repeat f_equal. lia.
      - specialize (Hg (S (calls w)) 0 (len (true_means (self w)) - 1) ltac:(lia)).
        simpl. lia. }
  all: rewrite eg_pull_greedy by congruence.
  all: assert (Hv : action_values (self w) <> [])
         by (apply nonempty_length; unfold len in *; rewrite Hlv; exact HK).
  all: destruct (index_max_first _ Hv) as (m & k & v & Hm & Hi & Hk & _).
  all: exists (Z.of_nat k), 1%nat; unfold index_of_max; rewrite Hm, Hi.
  all: split; [unfold drawn_by, drawn; repeat f_equal; lia|].
  all: apply lookup_lt_Some in Hk; unfold len; lia.
Qed.

(** C7. With [epsilon = 0] and [random()] in [[0, 1)], [pull] on an object
    with at least one value returns the smallest index at which
    [action_values] attains its maximum. The result is
    [action_values.index(max(action_values))], whatever the generator draws:
    two objects with the same [action_values] give the same index. *)
Theorem eg_pull_epsilon_zero (w : world t) :
  random_in_unit (gen w) ->
  (epsilon (self w) == 0)%Q ->
  action_values (self w) <> [] ->
  exists k v,
    pull w = (Ok (Z.of_nat k), drawn w) /\
    action_values (self w) !! k = Some v /\
    (forall j y, action_values (self w) !! j = Some y -> (y <= v)%Q) /\
    (forall j y, (j < k)%nat -> action_values (self w) !! j = Some y -> (y < v)%Q) /\
    (forall w2 : world t,
        random_in_unit (gen w2) -> (epsilon (self w2) == 0)%Q ->
        action_values (self w2) = action_values (self w) ->
        fst (pull w2) = Ok (Z.of_nat k)).
Proof.
  intros Hg He Hv.
  assert (Hgreedy : forall w2 : world t,
             random_in_unit (gen w2) -> (epsilon (self w2) == 0)%Q ->
             pull w2 = (index_of_max (action_values (self w2)), drawn w2)).
  { intros w2 Hg2 He2. apply eg_pull_greedy. intros E.
    apply Qlt_alt in E. destruct (Hg2 (calls w2)) as [H0 _]. lra. }
  destruct (index_max_first _ Hv) as (m & k & v & Hm & Hi & Hk & Hmax & Hfirst).
  assert (Hidx : index_of_max (action_values (self w)) = Ok (Z.of_nat k)).
  { unfold index_of_max. now rewrite Hm. }
  exists k, v. repeat split; auto.
  - rewrite Hgreedy by assumption. now rewrite Hidx.
  - intros w2 Hg2 He2 Heq. rewrite Hgreedy by assumption. simpl.
    now rewrite Heq.
Qed.

Lemma eg_pull_epsilon_zero_witness :
  exists k v,
    pull (World (mk (Bandit.__init__ [1; 2; 3]%Q) 0%Q [1; 3; 3 # 1]%Q) constant_gen 0)
    = (Ok (Z.of_nat k),
       drawn (World (mk (Bandit.__init__ [1; 2; 3]%Q) 0%Q [1; 3; 3 # 1]%Q) constant_gen 0)) /\
    [1; 3; 3 # 1]%Q !! k = Some v /\ k = 1%nat.
Proof.
  destruct (eg_pull_epsilon_zero
              (World (mk (Bandit.__init__ [1; 2; 3]%Q) 0%Q [1; 3; 3 # 1]%Q) constant_gen 0))
    as (k & v & Hp & Hk & _).
  - intros n. simpl. lra.
  - simpl. reflexivity.
  - simpl. discriminate.
  - exists k, v. split; [exact Hp|]. split; [exact Hk|].
    assert (E : fst (pull (World (mk (Bandit.__init__ [1; 2; 3]%Q) 0%Q [1; 3; 3 # 1]%Q)
                             constant_gen 0)) = Ok 1) by reflexivity.
    rewrite Hp in E. simpl in E. injection E as E. lia.
Defined.

End EpsilonGreedyPull.

(** ** What the methods leave unchanged *)

Section Keeps.
Context {T X : Type} (f : T -> X).

Lemma keeps_ret {A} (a : A) : keeps f (ret a).
Proof. intros w. split; reflexivity. Qed.

Lemma keeps_raise {A} e : keeps f (@raise (world T) A e).
Proof. intros w. split; reflexivity. Qed.

Lemma keeps_lift {A} (r : res A) : keeps f (lift r).
Proof. intros w. split; reflexivity. Qed.

Lemma keeps_get_self : keeps f get_self.
Proof. intros w. split; reflexivity. Qed.

Lemma keeps_random_random : keeps f random_random.
Proof. intros w. split; reflexivity. Qed.

Lemma keeps_random_randint a b : keeps f (random_randint a b).
Proof. intros w. unfold random_randint. destruct (b <? a); split; reflexivity. Qed.

Lemma keeps_random_betavariate a b : keeps f (random_betavariate a b).
Proof.
  intros w. unfold random_betavariate.
  destruct ((a <=? 0) || (b <=? 0)); split; reflexivity.
Qed.

Lemma keeps_bind {A B} (m : M (world T) A) (k : A -> M (world T) B) :
  keeps f m -> (forall a, keeps f (k a)) -> keeps f (bind m k).
Proof.
  intros Hm Hk w. unfold bind. specialize (Hm w).
  destruct (m w) as [[a|e] w1]; simpl in Hm.
  - destruct (Hk a w1) as [H1 H2]. rewrite H1, H2. exact Hm.
  - exact Hm.
Qed.

Lemma keeps_for_range {A} (body : A -> M (world T) A) n :
  (forall acc, keeps f (body acc)) -> forall acc, keeps f (for_range n body acc).
Proof.
  intros Hb. induction n as [|n IH]; intros acc; simpl.
  - apply keeps_ret.
  - apply keeps_bind; [apply Hb | exact IH].
Qed.

Lemma keeps_list_comp {A B} (g : A -> M (world T) B) l :
  (forall x, keeps f (g x)) -> keeps f (list_comp g l).
Proof.
  intros Hg. induction l as [|x l IH]; simpl.
  - apply keeps_ret.
  - apply keeps_bind; [apply Hg|]. intros y.
    apply keeps_bind; [exact IH|]. intros ys. apply keeps_ret.
Qed.

Lemma keeps_perform (call : method_call -> M (world T) unit) cs :
  (forall c, keeps f (call c)) ->
  forall w, f (self (perform call cs w)) = f (self w).
Proof.
  intros Hc. induction cs as [|c cs IH]; intros w; simpl; [reflexivity|].
  rewrite IH. apply Hc.
Qed.

End Keeps.

Create HintDb keeps.

#[local] Hint Resolve keeps_ret keeps_raise keeps_lift keeps_get_self
  keeps_random_random keeps_random_randint keeps_random_betavariate : keeps.

Ltac keeps_steps :=
  repeat (first [ apply keeps_bind; [|intro] | apply keeps_for_range; intro
                | apply keeps_list_comp; intro ]);
  auto with keeps.

Lemma eg_pull_keeps {X} (f : EpsilonGreedy.t -> X) : keeps f EpsilonGreedy.pull.
Proof.
  unfold EpsilonGreedy.pull. keeps_steps.
  destruct (_ ?= _)%Q; keeps_steps.
Qed.

Lemma ts_pull_keeps {X} (f : ThompsonSampling.t -> X) : keeps f ThompsonSampling.pull.
Proof.
  unfold ThompsonSampling.pull. keeps_steps.
Qed.

(** [update] rewrites [action_counts] and [action_values], or [alpha] or
    [beta], and nothing of the base object but the counts. *)
Ltac update_cases :=
  repeat (cbv beta iota;
          match goal with
          | |- context [match getitem ?l ?i with _ => _ end] => destruct (getitem l i)
          | |- context [match setitem ?l ?i ?x with _ => _ end] => destruct (setitem l i x)
          | |- context [if ?a =? ?b then _ else _] => destruct (a =? b)
          | |- context [if Qeq_bool ?a ?b then _ else _] => destruct (Qeq_bool a b)
          end).

Lemma eg_update_keeps {X} (f : EpsilonGreedy.t -> X) arm reward :
  (forall l s, f (EpsilonGreedy.set_action_counts l s) = f s) ->
  (forall l s, f (EpsilonGreedy.set_action_values l s) = f s) ->
  keeps f (EpsilonGreedy.update arm reward).
Proof.
  intros Hc Hv [s g n].
  cbv beta iota delta [EpsilonGreedy.update bind get_self set_self lift ret raise
                         self gen calls snd].
  update_cases; rewrite ?Hv, ?Hc; split; reflexivity.
Qed.

Lemma ts_update_keeps {X} (f : ThompsonSampling.t -> X) arm reward :
  (forall l s, f (ThompsonSampling.set_alpha l s) = f s) ->
  (forall l s, f (ThompsonSampling.set_beta l s) = f s) ->
  keeps f (ThompsonSampling.update arm reward).
Proof.
  intros Ha Hb [s g n].
  cbv beta iota delta [ThompsonSampling.update bind get_self set_self lift ret raise
                         self gen calls snd].
  update_cases; rewrite ?Ha, ?Hb; split; reflexivity.
Qed.

Ltac keeps_calls Hc Hv :=
  repeat (first [ apply eg_pull_keeps | apply ts_pull_keeps
                | apply eg_update_keeps; [exact Hc | exact Hv]
                | apply ts_update_keeps; [exact Hc | exact Hv]
                | apply keeps_for_range; intro
                | apply keeps_bind; [|intro] ]);
  auto with keeps.

Lemma eg_call_keeps {X} (f : EpsilonGreedy.t -> X) c :
  (forall l s, f (EpsilonGreedy.set_action_counts l s) = f s) ->
  (forall l s, f (EpsilonGreedy.set_action_values l s) = f s) ->
  keeps f (eg_call c).
Proof.
  intros Hc Hv. destruct c; simpl.
  - keeps_calls Hc Hv.
  - keeps_calls Hc Hv.
  - unfold EpsilonGreedy.experiment. keeps_calls Hc Hv.
  - unfold EpsilonGreedy.report. keeps_steps. destruct (_ =? _); keeps_steps.
Qed.

Lemma ts_call_keeps {X} (f : ThompsonSampling.t -> X) c :
  (forall l s, f (ThompsonSampling.set_alpha l s) = f s) ->
  (forall l s, f (ThompsonSampling.set_beta l s) = f s) ->
  keeps f (ts_call c).
Proof.
  intros Ha Hb. destruct c; simpl.
  - keeps_calls Ha Hb.
  - keeps_calls Ha Hb.
  - unfold ThompsonSampling.experiment. keeps_calls Ha Hb.
  - unfold ThompsonSampling.report. keeps_steps. destruct (_ =? _); keeps_steps.
Qed.

(** C8. [pull] leaves the object as it was, for both policies, in every
    state and whatever the generator draws, also when it raises: every
    field ([true_means], [estimated_means], [action_counts],
    [action_values], [alpha], [beta]) is the same before and after. *)
Theorem pull_leaves_object
    (we : world EpsilonGreedy.t) (wt : world ThompsonSampling.t) :
  self (snd (EpsilonGreedy.pull we)) = self we /\
  self (snd (ThompsonSampling.pull wt)) = self wt.
Proof.
  split.
  - apply (eg_pull_keeps (fun s => s)).
  - apply (ts_pull_keeps (fun s => s)).
Qed.

(** C10. [estimated_means] is [K] zeros in a fresh object of either policy
    and stays so through any sequence of [pull], [update], [experiment] and
    [report] calls, whether they return or raise. *)
Theorem estimated_means_stay_zero
    (tm : list Q) (eps : Q) (g : Random) (n : nat) (cs : list method_call) :
  EpsilonGreedy.estimated_means
    (self (perform eg_call cs (World (EpsilonGreedy.__init__ tm eps) g n)))
  = replicate (length tm) 0%Q /\
  ThompsonSampling.estimated_means
    (self (perform ts_call cs (World (ThompsonSampling.__init__ tm) g n)))
  = replicate (length tm) 0%Q.
Proof.
  split.
  - rewrite (keeps_perform EpsilonGreedy.estimated_means eg_call cs); [reflexivity|].
    intros c. now apply eg_call_keeps.
  - rewrite (keeps_perform ThompsonSampling.estimated_means ts_call cs); [reflexivity|].
    intros c. now apply ts_call_keeps.
Qed.

(** ** [experiment] *)

Section ThompsonSamplingPull.
Import ThompsonSampling.

Lemma ts_pull_unfold :
  pull = (let* s := get_self in
          let* sampled_means := list_comp ts_sample (range (len (true_means s))) in
          let* m := lift (py_max sampled_means) in
          lift (index sampled_means m)).
Proof. reflexivity. Qed.

Lemma ts_sample_Ok (w : world t) i :
  ts_ready (self w) -> 0 <= i < len (true_means (self w)) ->
  exists x, ts_sample i w = (Ok x, drawn w).
Proof.
  intros ([Hla Hlb] & _ & Hpa & Hpb) Hi.
  destruct (getitem_in_range (alpha (self w)) i) as (a & Ha & Hga).
  { unfold len in *. now rewrite Hla. }
  destruct (getitem_in_range (beta (self w)) i) as (b & Hb & Hgb).
  { unfold len in *. now rewrite Hlb. }
  pose proof (Forall_lookup_1 _ _ _ _ Hpa Ha) as Ha0.
  pose proof (Forall_lookup_1 _ _ _ _ Hpb Hb) as Hb0.
  simpl in Ha0, Hb0.
  unfold ts_sample.
  rewrite (bind_Ok get_self _ _ (self w) w) by reflexivity.
  rewrite (bind_Ok _ _ _ a w) by (unfold lift; now rewrite Hga).
  rewrite (bind_Ok _ _ _ b w) by (unfold lift; now rewrite Hgb).
  unfold random_betavariate.
  destruct (Z.leb_spec a 0); [lia|]. destruct (Z.leb_spec b 0); [lia|].
  simpl. eauto.
Qed.

Lemma ts_samples (l : list Z) : forall w : world t,
  ts_ready (self w) ->
  Forall (fun i => 0 <= i < len (true_means (self w))) l ->
  exists samples,
    list_comp ts_sample l w = (Ok samples, drawn_by (length l) w) /\
    length samples = length l.
Proof.
  induction l as [|i l IH]; intros w Hr Hl.
  - exists []. split; [|reflexivity]. simpl. unfold ret, drawn_by.
    destruct w; simpl. repeat f_equal. lia.
  - apply Forall_cons in Hl as [Hi Hl].
    destruct (ts_sample_Ok w i Hr Hi) as [x Hx].
    destruct (IH (drawn w) Hr Hl) as (xs & Hxs & Hlen).
    exists (x :: xs). split; [|simpl; now rewrite Hlen].
    simpl. rewrite (bind_Ok _ _ _ _ _ Hx). rewrite (bind_Ok _ _ _ _ _ Hxs).
    unfold ret, drawn_by, drawn. simpl. repeat f_equal. lia.
Qed.

Lemma ts_pull_arm (w : world t) :
  ts_ready (self w) ->
  exists arm k,
    pull w = (Ok arm, drawn_by k w) /\ 0 <= arm < len (true_means (self w)).
Proof.
  intros Hr. pose proof Hr as (_ & Hne & _).
  apply nonempty_length in Hne.
  destruct (ts_samples (range (len (true_means (self w)))) w Hr) as (xs & Hxs & Hlen).
  { unfold range. apply Forall_seqZ. intros; lia. }
  unfold range in Hlen. rewrite length_seqZ in Hlen.
  assert (Hxne : xs <> []).
  { apply nonempty_length. unfold len in *. lia. }
  destruct (index_max_first xs Hxne) as (m & k & v & Hm & Hi & Hk & _).
  exists (Z.of_nat k). eexists. split.
  - rewrite ts_pull_unfold.
    rewrite (bind_Ok get_self _ _ (self w) w) by reflexivity.
    rewrite (bind_Ok _ _ _ _ _ Hxs).
    erewrite (bind_Ok (lift (py_max xs))) by (unfold lift; now rewrite Hm).
    unfold lift. rewrite Hi. reflexivity.
  - apply lookup_lt_Some in Hk. unfold len in *. lia.
Qed.

End ThompsonSamplingPull.

Section ExperimentLoop.
Context {T : Type}.
Variables (pull : M (world T) Z) (update : Z -> Q -> M (world T) unit).
Variables (true_means : T -> list Q) (ready : world T -> Prop).

Hypothesis pull_arm : forall w, ready w ->
  exists arm w1, pull w = (Ok arm, w1) /\ ready w1 /\ self w1 = self w /\
                 0 <= arm < len (true_means (self w)).

Hypothesis update_Ok : forall w arm reward, ready w ->
  0 <= arm < len (true_means (self w)) ->
  exists w2, update arm reward w = (Ok tt, w2) /\ ready w2 /\
             true_means (self w2) = true_means (self w).

Lemma lookup_In {A} (l : list A) k x : l !! k = Some x -> In x l.
Proof.
  revert k. induction l as [|y l IH]; intros [|k] H; simpl in *; try discriminate.
  - left. congruence.
  - right. eauto.
Qed.

Lemma experiment_loop (n : nat) : forall w rewards,
  ready w ->
  exists tr w',
    for_range n (trial pull update true_means) rewards w = (Ok (rewards ++ map snd tr), w') /\
    trials pull update true_means w tr w' /\
    trace_of (true_means (self w)) (Z.of_nat n) tr /\
    ready w'.
Proof.
  induction n as [|n IH]; intros w rewards Hw.
  - exists [], w. simpl. rewrite app_nil_r.
    repeat split; [constructor | constructor | assumption].
  - destruct (pull_arm w Hw) as (arm & w1 & Hpull & Hw1 & Hs1 & Harm).
    destruct (getitem_in_range (true_means (self w)) arm Harm) as (reward & Hlk & Hget).
    rewrite <- Hs1 in Harm, Hget.
    destruct (update_Ok w1 arm reward Hw1 Harm) as (w2 & Hup & Hw2 & Htm2).
    destruct (IH w2 (rewards ++ [reward]) Hw2) as (tr & w' & Hrun & Htr & [Hlen Hall] & Hw').
    exists ((arm, reward) :: tr), w'. split; [|split; [|split]].
    + assert (Htrial : trial pull update true_means rewards w = (Ok (rewards ++ [reward]), w2)).
      { unfold trial.
        rewrite (bind_Ok _ _ _ _ _ Hpull).
        rewrite (bind_Ok get_self _ _ (self w1) w1) by reflexivity.
        rewrite (bind_Ok _ _ _ reward w1) by (unfold lift; now rewrite Hget).
        rewrite (bind_Ok _ _ _ _ _ Hup). reflexivity. }
      change (for_range (S n) (trial pull update true_means) rewards)
        with (let* acc := trial pull update true_means rewards in
              for_range n (trial pull update true_means) acc).
      rewrite (bind_Ok _ _ _ _ _ Htrial).
      rewrite Hrun. now rewrite <- app_assoc.
    + econstructor; eassumption.
    + rewrite Htm2, Hs1 in Hall. rewrite Hs1 in Harm. split.
      * unfold len in *. simpl. lia.
      * constructor; [|exact Hall]. simpl.
        repeat split; try lia; [exact Hlk | eapply lookup_In; exact Hlk].
    + exact Hw'.
Qed.

End ExperimentLoop.

Lemma eg_experiment_loop num_trials :
  EpsilonGreedy.experiment num_trials
  = for_range (Z.to_nat num_trials)
      (trial EpsilonGreedy.pull EpsilonGreedy.update EpsilonGreedy.true_means) [].
Proof. reflexivity. Qed.

Lemma ts_experiment_loop num_trials :
  ThompsonSampling.experiment num_trials
  = for_range (Z.to_nat num_trials)
      (trial ThompsonSampling.pull ThompsonSampling.update ThompsonSampling.true_means) [].
Proof. reflexivity. Qed.

Lemma eg_ready_update (w : world EpsilonGreedy.t) arm reward :
  eg_ready (self w) ->
  0 <= arm < len (EpsilonGreedy.true_means (self w)) ->
  exists w2, EpsilonGreedy.update arm reward w = (Ok tt, w2) /\
             eg_ready (self w2) /\ gen w2 = gen w /\
             EpsilonGreedy.true_means (self w2) = EpsilonGreedy.true_means (self w).
Proof.
  destruct w as [s g n]. simpl. intros ([Hlc Hlv] & Hne & Hpos) Harm.
  destruct (getitem_in_range (EpsilonGreedy.action_counts s) arm) as (c & Hc & _).
  { unfold len in *. now rewrite Hlc. }
  destruct (getitem_in_range (EpsilonGreedy.action_values s) arm) as (v & Hv & _).
  { unfold len in *. now rewrite Hlv. }
  pose proof (Forall_lookup_1 _ _ _ _ Hpos Hc) as Hc0. simpl in Hc0.
  eexists. split.
  - apply (eg_update_Ok s g n arm reward (Z.to_nat arm) c v);
      [congruence | | assumption | assumption | lia].
    rewrite Hlc. now apply py_index_in_range.
  - simpl. split; [|split; reflexivity].
    unfold eg_ready, eg_wf, eg_updated. simpl.
    change (EpsilonGreedy.action_counts
              (EpsilonGreedy.set_action_values ?l
                 (EpsilonGreedy.set_action_counts ?cs s))) with cs.
    rewrite !length_insert. repeat split; try assumption.
    apply Forall_insert; [assumption | lia].
Qed.

Lemma ts_ready_update (w : world ThompsonSampling.t) arm reward :
  ts_ready (self w) ->
  0 <= arm < len (ThompsonSampling.true_means (self w)) ->
  exists w2, ThompsonSampling.update arm reward w = (Ok tt, w2) /\
             ts_ready (self w2) /\
             ThompsonSampling.true_means (self w2) = ThompsonSampling.true_means (self w).
Proof.
  destruct w as [s g n]. simpl. intros ([Hla Hlb] & Hne & Hpa & Hpb) Harm.
  eexists. split.
  - apply (ts_update_Ok s g n arm reward (Z.to_nat arm)); [congruence|].
    rewrite Hla. now apply py_index_in_range.
  - simpl. unfold ts_ready, ts_wf, ts_updated.
    destruct (Qeq_bool reward 1); simpl; rewrite ?length_alter;
      repeat split; try assumption;
      apply Forall_alter; try assumption; intros; lia.
Qed.

Lemma eg_ready_init tm eps : tm <> [] -> eg_ready (EpsilonGreedy.__init__ tm eps).
Proof.
  intros Hne. split; [apply eg_wf_init|]. split; [exact Hne|].
  apply Forall_replicate. lia.
Qed.

Lemma ts_ready_init tm : tm <> [] -> ts_ready (ThompsonSampling.__init__ tm).
Proof.
  intros Hne. split; [apply ts_wf_init|]. split; [exact Hne|].
  split; apply Forall_replicate; lia.
Qed.

(** C5. On an object with at least one arm (no negative count, positive
    [alpha] and [beta]) and with [randint(a, b)] in [[a, b]], for both
    policies and every [num_trials >= 0], [experiment(num_trials)] returns
    a list of exactly [num_trials] rewards. The run is a sequence of trials,
    each one [pull], then the reward read from [true_means] at the arm pulled,
    then [update] with that arm and reward; the reward of trial [t] is
    [true_means[arm_t]], an element of [true_means]. The object it leaves
    can run [experiment] again. *)
Theorem experiment_rewards
    (we : world EpsilonGreedy.t) (wt : world ThompsonSampling.t) (num_trials : Z) :
  0 <= num_trials ->
  randint_in_range (gen we) ->
  eg_ready (self we) ->
  ts_ready (self wt) ->
  (exists rewards tr we',
      EpsilonGreedy.experiment num_trials we = (Ok rewards, we') /\
      len rewards = num_trials /\
      rewards = map snd tr /\
      trials EpsilonGreedy.pull EpsilonGreedy.update EpsilonGreedy.true_means we tr we' /\
      trace_of (EpsilonGreedy.true_means (self we)) num_trials tr /\
      eg_ready (self we')) /\
  (exists rewards tr wt',
      ThompsonSampling.experiment num_trials wt = (Ok rewards, wt') /\
      len rewards = num_trials /\
      rewards = map snd tr /\
      trials ThompsonSampling.pull ThompsonSampling.update ThompsonSampling.true_means
        wt tr wt' /\
      trace_of (ThompsonSampling.true_means (self wt)) num_trials tr /\
      ts_ready (self wt')).
Proof.
  intros Hn Hg He Ht. split.
  - destruct (experiment_loop EpsilonGreedy.pull EpsilonGreedy.update
                EpsilonGreedy.true_means
                (fun w => randint_in_range (gen w) /\ eg_ready (self w)))
      with (n := Z.to_nat num_trials) (w := we) (rewards := @nil Q)
      as (tr & we' & Hrun & Htr & Htrace & _ & Hready).
    + intros w [Hgw Hw]. pose proof Hw as (Hwf & Hne & _).
      destruct (eg_pull_arm w Hgw Hwf Hne) as (arm & k & Hp & Harm).
      exists arm, (drawn_by k w).
      split; [exact Hp|]. split; [split; assumption|].
      split; [reflexivity | exact Harm].
    + intros w arm reward [Hgw Hw] Harm.
      destruct (eg_ready_update w arm reward Hw Harm) as (w2 & Hup & Hw2 & Hg2 & Htm).
      exists w2. rewrite Hg2.
      split; [exact Hup|]. split; [split; assumption | exact Htm].
    + split; assumption.
    + rewrite Z2Nat.id in Htrace by exact Hn.
      exists (map snd tr), tr, we'. rewrite eg_experiment_loop.
      destruct Htrace as [Hlen Hall]. simpl in Hrun.
      split; [exact Hrun|]. split; [unfold len in *; now rewrite length_map|].
      split; [reflexivity|]. split; [exact Htr|].
      split; [split; assumption | exact Hready].
  - destruct (experiment_loop ThompsonSampling.pull ThompsonSampling.update
                ThompsonSampling.true_means (fun w => ts_ready (self w)))
      with (n := Z.to_nat num_trials) (w := wt) (rewards := @nil Q)
      as (tr & wt' & Hrun & Htr & Htrace & Hready).
    + intros w Hw.
      destruct (ts_pull_arm w Hw) as (arm & k & Hp & Harm).
      exists arm, (drawn_by k w).
      split; [exact Hp|]. split; [exact Hw|].
      split; [reflexivity | exact Harm].
    + intros w arm reward Hw Harm.
      destruct (ts_ready_update w arm reward Hw Harm) as (w2 & Hup & Hw2 & Htm).
      exists w2. split; [exact Hup|]. split; [exact Hw2 | exact Htm].
    + assumption.
    + rewrite Z2Nat.id in Htrace by exact Hn.
      exists (map snd tr), tr, wt'. rewrite ts_experiment_loop.
      destruct Htrace as [Hlen Hall]. simpl in Hrun.
      split; [exact Hrun|]. split; [unfold len in *; now rewrite length_map|].
      split; [reflexivity|]. split; [exact Htr|].
      split; [split; assumption | exact Hready].
Qed.

Lemma experiment_rewards_witness :
  (exists rewards we',
      EpsilonGreedy.experiment 3
        (World (EpsilonGreedy.__init__ true_means EpsilonGreedy.default_epsilon)
           constant_gen 0) = (Ok rewards, we') /\ len rewards = 3) /\
  (exists rewards wt',
      ThompsonSampling.experiment 3
        (World (ThompsonSampling.__init__ true_means) constant_gen 0)
      = (Ok rewards, wt') /\ len rewards = 3).
Proof.
  destruct (experiment_rewards
              (World (EpsilonGreedy.__init__ true_means EpsilonGreedy.default_epsilon)
                 constant_gen 0)
              (World (ThompsonSampling.__init__ true_means) constant_gen 0) 3)
    as [(r1 & tr1 & w1 & H1 & L1 & _) (r2 & tr2 & w2 & H2 & L2 & _)].
  - lia.
  - intros n a b H. simpl. lia.
  - apply eg_ready_init. discriminate.
  - apply ts_ready_init. discriminate.
  - split; [exists r1, w1 | exists r2, w2]; split; assumption.
Defined.

(** ** Cumulative regret *)

Lemma sumQ_bound (m : Q) (l : list Q) :
  Forall (fun r => (r <= m)%Q) l -> (sumQ l <= m * inject_Z (len l))%Q.
Proof.
  induction l as [|x l IH] using rev_ind; intros H.
  - change (0 <= m * 0)%Q. rewrite Qmult_0_r. apply Qle_refl.
  - apply Forall_app in H as [Hl Hx]. apply Forall_cons in Hx as [Hx _].
    specialize (IH Hl). rewrite sumQ_snoc, len_snoc, inject_Z_plus.
    change (inject_Z 1) with 1%Q. cbv beta in Hx.
    assert (E : (m * (inject_Z (len l) + 1) == m * inject_Z (len l) + m)%Q) by ring.
    rewrite E. generalize dependent (m * inject_Z (len l))%Q. intros; lra.
Qed.

(** C9. When no reward of a sequence exceeds [max(true_means)], the
    cumulative regret that the reporter computes for it,
    [max(true_means) * len(rewards) - sum(rewards)], is not negative; so for
    both sequences of [report_cumulative_reward_and_regret]. *)
Theorem cumulative_regret_nonneg
    (tm epsilon_greedy_rewards thompson_rewards : list Q) (m : Q) :
  py_max tm = Ok m ->
  Forall (fun r => (r <= m)%Q) epsilon_greedy_rewards ->
  Forall (fun r => (r <= m)%Q) thompson_rewards ->
  exists t,
    Visualization.report_cumulative_reward_and_regret
      tm epsilon_greedy_rewards thompson_rewards = Ok t /\
    Visualization.cumulative_epsilon_greedy_regret t
    = (m * inject_Z (len epsilon_greedy_rewards) - sumQ epsilon_greedy_rewards)%Q /\
    Visualization.cumulative_thompson_regret t
    = (m * inject_Z (len thompson_rewards) - sumQ thompson_rewards)%Q /\
    (0 <= Visualization.cumulative_epsilon_greedy_regret t)%Q /\
    (0 <= Visualization.cumulative_thompson_regret t)%Q.
Proof.
  intros Hm He Ht. unfold Visualization.report_cumulative_reward_and_regret.
  rewrite Hm. eexists. split; [reflexivity|]. simpl.
  pose proof (sumQ_bound m _ He). pose proof (sumQ_bound m _ Ht).
  repeat split; lra.
Qed.

Lemma cumulative_regret_nonneg_witness :
  exists t,
    Visualization.report_cumulative_reward_and_regret
      true_means [1; 4; 4]%Q [2; 2]%Q = Ok t /\
    (0 <= Visualization.cumulative_epsilon_greedy_regret t)%Q /\
    (0 <= Visualization.cumulative_thompson_regret t)%Q.
Proof.
  destruct (cumulative_regret_nonneg true_means [1; 4; 4]%Q [2; 2]%Q 4%Q)
    as (t & Hr & _ & _ & H1 & H2).
  - reflexivity.
  - repeat constructor; vm_compute; discriminate.
  - repeat constructor; vm_compute; discriminate.
  - exists t. repeat split; assumption.
Defined.

(** * Further properties *)

(** ** Reading and writing a list element *)

Lemma getitem_inv {A} (l : list A) i x :
  getitem l i = Ok x -> exists k, py_index (length l) i = Ok k /\ l !! k = Some x.
Proof.
  unfold getitem. destruct (py_index (length l) i) as [k|e]; [|discriminate].
  destruct (l !! k) as [y|] eqn:E; [|discriminate].
  intros [= <-]. eauto.
Qed.

Lemma setitem_inv {A} (l : list A) i x l' :
  setitem l i x = Ok l' -> exists k, py_index (length l) i = Ok k /\ l' = <[k:=x]> l.
Proof.
  unfold setitem. destruct (py_index (length l) i) as [k|e]; [|discriminate].
  intros [= <-]. eauto.
Qed.

Lemma sumZ_insert (l : list Z) k c d :
  l !! k = Some c -> sumZ (<[k := c + d]> l) = sumZ l + d.
Proof.
  revert k. induction l as [|x l IH]; intros [|k] H; simpl in *; try discriminate.
  - injection H as ->. rewrite !sumZ_cons. lia.
  - rewrite !sumZ_cons, (IH k H). lia.
Qed.

Lemma sumZ_replicate n x : sumZ (replicate n x) = Z.of_nat n * x.
Proof.
  induction n as [|n IH]; [reflexivity|].
  change (replicate (S n) x) with (x :: replicate n x).
  rewrite sumZ_cons, IH. lia.
Qed.

(** ** Invariants of the objects *)

Section Preserves.
Context {T : Type} (P : T -> Prop).

Lemma preserves_keeps {A} (m : M (world T) A) :
  keeps (fun s => s) m -> preserves P m.
Proof. intros H w Hw. destruct (H w) as [-> _]. exact Hw. Qed.

Lemma preserves_ret {A} (a : A) : preserves P (ret a).
Proof. intros w Hw. exact Hw. Qed.

Lemma preserves_bind {A B} (m : M (world T) A) (k : A -> M (world T) B) :
  preserves P m -> (forall a, preserves P (k a)) -> preserves P (bind m k).
Proof.
  intros Hm Hk w Hw. unfold bind. specialize (Hm w Hw).
  destruct (m w) as [[a|e] w1]; simpl in Hm.
  - now apply Hk.
  - exact Hm.
Qed.

Lemma preserves_for_range {A} (body : A -> M (world T) A) n :
  (forall acc, preserves P (body acc)) ->
  forall acc, preserves P (for_range n body acc).
Proof.
  intros Hb. induction n as [|n IH]; intros acc; simpl.
  - apply preserves_ret.
  - apply preserves_bind; [apply Hb | exact IH].
Qed.

Lemma preserves_perform (call : method_call -> M (world T) unit) cs :
  (forall c, preserves P (call c)) ->
  forall w, P (self w) -> P (self (perform call cs w)).
Proof.
  intros Hc. induction cs as [|c cs IH]; intros w Hw; simpl; [exact Hw|].
  apply IH. now apply Hc.
Qed.

End Preserves.

Lemma eg_update_sound arm reward :
  preserves eg_sound (EpsilonGreedy.update arm reward).
Proof.
  intros [s g n] [[Hlc Hlv] Hpos]. simpl in *.
  cbv beta iota delta [EpsilonGreedy.update bind get_self set_self lift ret raise
                         self gen calls snd].
  destruct (getitem (EpsilonGreedy.action_counts s) arm) as [c|e] eqn:E1;
    [|now repeat split].
  destruct (getitem_inv _ _ _ E1) as (k & Hk & Hc).
  pose proof (Forall_lookup_1 _ _ _ _ Hpos Hc) as Hc0. simpl in Hc0.
  destruct (setitem (EpsilonGreedy.action_counts s) arm (c + 1)) as [cs|e] eqn:E2;
    [|now repeat split].
  destruct (setitem_inv _ _ _ _ E2) as (k' & Hk' & ->).
  assert (Hs1 : eg_sound (EpsilonGreedy.set_action_counts
                            (<[k':=c + 1]> (EpsilonGreedy.action_counts s)) s)).
  { split; [split|].
    - change (length (<[k':=c + 1]> (EpsilonGreedy.action_counts s))
              = length (EpsilonGreedy.true_means s)).
      now rewrite length_insert.
    - exact Hlv.
    - apply Forall_insert; [exact Hpos | lia]. }
  set (s1 := EpsilonGreedy.set_action_counts _ s) in *.
  destruct (getitem (EpsilonGreedy.action_counts s1) arm) as [n1|e]; [|exact Hs1].
  destruct (getitem (EpsilonGreedy.action_values s1) arm) as [v|e]; [|exact Hs1].
  cbv beta iota. destruct (n1 =? 0); cbv beta iota; [exact Hs1|].
  destruct (setitem (EpsilonGreedy.action_values s1) arm _) as [vs|e] eqn:E3;
    [|exact Hs1].
  destruct (setitem_inv _ _ _ _ E3) as (k3 & _ & ->).
  destruct Hs1 as [[Hlc1 Hlv1] Hpos1].
  split; [split|]; try assumption.
  change (length (<[k3:=(v + (1 / inject_Z n1) * (reward - v))%Q]>
                    (EpsilonGreedy.action_values s1))
          = length (EpsilonGreedy.true_means s)).
  rewrite length_insert. exact Hlv1.
Qed.

Lemma ts_update_sound arm reward :
  preserves ts_sound (ThompsonSampling.update arm reward).
Proof.
  intros [s g n] ([Hla Hlb] & Hpa & Hpb). simpl in *.
  cbv beta iota delta [ThompsonSampling.update bind get_self set_self lift ret raise
                         self gen calls snd].
  destruct (Qeq_bool reward 1).
  - destruct (getitem (ThompsonSampling.alpha s) arm) as [a|e] eqn:E1;
      [|now repeat split].
    destruct (getitem_inv _ _ _ E1) as (k & Hk & Ha).
    pose proof (Forall_lookup_1 _ _ _ _ Hpa Ha) as Ha0. simpl in Ha0.
    destruct (setitem (ThompsonSampling.alpha s) arm (a + 1)) as [l|e] eqn:E2;
      [|now repeat split].
    destruct (setitem_inv _ _ _ _ E2) as (k' & _ & ->).
    split; [split|split]; try assumption.
    + change (length (<[k':=a + 1]> (ThompsonSampling.alpha s))
              = length (ThompsonSampling.true_means s)).
      now rewrite length_insert.
    + apply Forall_insert; [exact Hpa | lia].
  - destruct (getitem (ThompsonSampling.beta s) arm) as [b|e] eqn:E1;
      [|now repeat split].
    destruct (getitem_inv _ _ _ E1) as (k & Hk & Hb).
    pose proof (Forall_lookup_1 _ _ _ _ Hpb Hb) as Hb0. simpl in Hb0.
    destruct (setitem (ThompsonSampling.beta s) arm (b + 1)) as [l|e] eqn:E2;
      [|now repeat split].
    destruct (setitem_inv _ _ _ _ E2) as (k' & _ & ->).
    split; [split|split]; try assumption.
    + change (length (<[k':=b + 1]> (ThompsonSampling.beta s))
              = length (ThompsonSampling.true_means s)).
      now rewrite length_insert.
    + apply Forall_insert; [exact Hpb | lia].
Qed.

Ltac preserves_calls :=
  repeat (first [ apply preserves_keeps; apply eg_pull_keeps
                | apply preserves_keeps; apply ts_pull_keeps
                | apply eg_update_sound | apply ts_update_sound
                | apply preserves_for_range; intro
                | apply preserves_bind; [|intro]
                | apply preserves_ret
                | apply preserves_keeps; solve [auto with keeps] ]).

Lemma eg_call_sound c : preserves eg_sound (eg_call c).
Proof.
  destruct c; simpl.
  - preserves_calls.
  - preserves_calls.
  - unfold EpsilonGreedy.experiment. preserves_calls.
  - apply preserves_keeps. unfold EpsilonGreedy.report. keeps_steps.
    destruct (_ =? _); keeps_steps.
Qed.

Lemma ts_call_sound c : preserves ts_sound (ts_call c).
Proof.
  destruct c; simpl.
  - preserves_calls.
  - preserves_calls.
  - unfold ThompsonSampling.experiment. preserves_calls.
  - apply preserves_keeps. unfold ThompsonSampling.report. keeps_steps.
    destruct (_ =? _); keeps_steps.
Qed.

Lemma eg_sound_init tm eps : eg_sound (EpsilonGreedy.__init__ tm eps).
Proof. split; [apply eg_wf_init | apply Forall_replicate; lia]. Qed.

Lemma ts_sound_init tm : ts_sound (ThompsonSampling.__init__ tm).
Proof. split; [apply ts_wf_init | split; apply Forall_replicate; lia]. Qed.

(** X1. Whatever calls are made on a fresh object of either policy, with
    whatever arguments and whether they return or raise, the lists of the
    object keep the length of [true_means], no count of [EpsilonGreedy]
    becomes negative, and [alpha] and [beta] stay at least [1]. *)
Theorem objects_stay_sound
    (tm : list Q) (eps : Q) (g : Random) (n : nat) (cs : list method_call) :
  eg_sound (self (perform eg_call cs (World (EpsilonGreedy.__init__ tm eps) g n))) /\
  ts_sound (self (perform ts_call cs (World (ThompsonSampling.__init__ tm) g n))).
Proof.
  split.
  - apply preserves_perform; [exact eg_call_sound | apply eg_sound_init].
  - apply preserves_perform; [exact ts_call_sound | apply ts_sound_init].
Qed.

(** X2. No call writes [true_means] or [epsilon] of an [EpsilonGreedy]
    object, nor [true_means] or [action_counts] of a [ThompsonSampling]
    object: after any sequence of calls they are as [__init__] left them, and
    the counts of [ThompsonSampling] are still all zero. *)
Theorem fields_never_written
    (tm : list Q) (eps : Q) (g : Random) (n : nat) (cs : list method_call) :
  let se := self (perform eg_call cs (World (EpsilonGreedy.__init__ tm eps) g n)) in
  let st := self (perform ts_call cs (World (ThompsonSampling.__init__ tm) g n)) in
  EpsilonGreedy.true_means se = tm /\
  EpsilonGreedy.epsilon se = eps /\
  ThompsonSampling.true_means st = tm /\
  ThompsonSampling.action_counts st = replicate (length tm) 0.
Proof.
  intros se st. unfold se, st. repeat split.
  - rewrite (keeps_perform EpsilonGreedy.true_means eg_call cs); [reflexivity|].
    intros c. now apply eg_call_keeps.
  - rewrite (keeps_perform EpsilonGreedy.epsilon eg_call cs); [reflexivity|].
    intros c. now apply eg_call_keeps.
  - rewrite (keeps_perform ThompsonSampling.true_means ts_call cs); [reflexivity|].
    intros c. now apply ts_call_keeps.
  - rewrite (keeps_perform ThompsonSampling.action_counts ts_call cs); [reflexivity|].
    intros c. now apply ts_call_keeps.
Qed.

(** ** Counting the updates *)

Lemma eg_updates_sum l : forall hist s g n,
  eg_tracks hist s ->
  arms_in_range (length (EpsilonGreedy.true_means s)) l ->
  exists s',
    eg_updates l (World s g n) = (Ok tt, World s' g n) /\
    sumZ (EpsilonGreedy.action_counts s')
    = sumZ (EpsilonGreedy.action_counts s) + len l.
Proof.
  induction l as [|[arm r] l IH]; intros hist s g n Ht Hr.
  - exists s. split; [reflexivity|]. unfold len. simpl. lia.
  - apply Forall_cons in Hr as [Harm Hr]. simpl in Harm.
    destruct (eg_tracks_update hist s g n arm r Ht Harm) as (v & Hc & _ & Hup & Ht').
    set (s1 := eg_updated _ _ _ _ s) in *.
    destruct (IH _ s1 g n Ht' Hr) as (s' & Hrun & Hsum).
    exists s'. split.
    + unfold eg_updates in *. simpl. erewrite bind_Ok; [exact Hrun | exact Hup].
    + rewrite Hsum.
      change (EpsilonGreedy.action_counts s1)
        with (<[Z.to_nat arm := len (rewards_to arm hist) + 1]>
                (EpsilonGreedy.action_counts s)).
      rewrite (sumZ_insert _ _ _ 1 Hc). unfold len. simpl. lia.
Qed.

(** X3. Starting from a fresh [EpsilonGreedy] object, after any sequence of
    [update] calls on arms of [[0, K)], [action_counts[a]] is the number of
    calls made with arm [a], for every arm, and the counts add up to the
    number of calls. *)
Theorem eg_update_counts_calls
    (tm : list Q) (eps : Q) (g : Random) (n : nat) (l : list (Z * Q)) :
  arms_in_range (length tm) l ->
  exists s',
    eg_updates l (World (EpsilonGreedy.__init__ tm eps) g n) = (Ok tt, World s' g n) /\
    (forall a, 0 <= a < len tm ->
       EpsilonGreedy.action_counts s' !! Z.to_nat a = Some (len (rewards_to a l))) /\
    sumZ (EpsilonGreedy.action_counts s') = len l.
Proof.
  intros Hl.
  destruct (eg_updates_tracks l [] _ g n (eg_tracks_init tm eps) Hl)
    as (s' & Hrun & [_ Hall] & Htm).
  destruct (eg_updates_sum l [] _ g n (eg_tracks_init tm eps) Hl)
    as (s'' & Hrun' & Hsum).
  assert (s'' = s') as -> by congruence.
  exists s'. split; [exact Hrun|]. split.
  - intros a Ha. rewrite Htm in Hall. destruct (Hall a Ha) as (v & Hc & _).
    exact Hc.
  - rewrite Hsum.
    change (EpsilonGreedy.action_counts (EpsilonGreedy.__init__ tm eps))
      with (replicate (length tm) 0).
    rewrite sumZ_replicate. lia.
Qed.

Lemma eg_update_counts_calls_witness :
  exists s',
    eg_updates [(1, 4%Q); (0, 1%Q); (1, 1%Q)]
      (World (EpsilonGreedy.__init__ [1; 2]%Q 0%Q) constant_gen 0)
    = (Ok tt, World s' constant_gen 0) /\
    EpsilonGreedy.action_counts s' !! 1%nat = Some 2 /\
    sumZ (EpsilonGreedy.action_counts s') = 3.
Proof.
  destruct (eg_update_counts_calls [1; 2]%Q 0%Q constant_gen 0
              [(1, 4%Q); (0, 1%Q); (1, 1%Q)]) as (s' & Hrun & Hc & Hsum).
  - repeat constructor; simpl; lia.
  - exists s'. split; [exact Hrun|]. split; [|exact Hsum].
    apply (Hc 1). unfold len; simpl; lia.
Defined.

(** ** [pull]: exploring, and objects without arms *)

(** X4. With [epsilon >= 1], [random()] in [[0, 1)] and [randint(a, b)] in
    [[a, b]], [EpsilonGreedy.pull] on an object with at least one arm always
    explores: it returns the second draw, [randint(0, K - 1)], an arm of
    [[0, K)], whatever [action_values] holds. *)
Theorem eg_pull_epsilon_one (w : world EpsilonGreedy.t) :
  random_in_unit (gen w) ->
  randint_in_range (gen w) ->
  (1 <= EpsilonGreedy.epsilon (self w))%Q ->
  EpsilonGreedy.true_means (self w) <> [] ->
  let arm := randint_at (gen w) (S (calls w)) 0
               (len (EpsilonGreedy.true_means (self w)) - 1) in
  EpsilonGreedy.pull w = (Ok arm, drawn (drawn w)) /\
  0 <= arm < len (EpsilonGreedy.true_means (self w)).
Proof.
  intros Hu Hg He Hne.
  apply nonempty_length in Hne.
  assert (Hlt : (random_at (gen w) (calls w) ?= EpsilonGreedy.epsilon (self w))%Q = Lt).
  { apply Qlt_alt. destruct (Hu (calls w)) as [_ H1].
    eapply Qlt_le_trans; eassumption. }
  intros arm.
  rewrite (eg_pull_explore w Hlt). unfold random_randint.
  destruct (Z.ltb_spec (len (EpsilonGreedy.true_means (self w)) - 1) 0); [lia|].
  split; [reflexivity|].
  specialize (Hg (S (calls w)) 0 (len (EpsilonGreedy.true_means (self w)) - 1)
                ltac:(lia)).
  unfold arm. lia.
Qed.

Lemma eg_pull_epsilon_one_witness :
  EpsilonGreedy.pull (World (EpsilonGreedy.__init__ true_means 1%Q) constant_gen 0)
  = (Ok 0, World (EpsilonGreedy.__init__ true_means 1%Q) constant_gen 2).
Proof.
  destruct (eg_pull_epsilon_one
              (World (EpsilonGreedy.__init__ true_means 1%Q) constant_gen 0))
    as [Hp _].
  - intros n. simpl. lra.
  - intros n a b H. simpl. lia.
  - simpl. lra.
  - simpl. discriminate.
  - exact Hp.
Defined.

Lemma for_range_raise {St A} (body : A -> M St A) n acc s e s' :
  body acc s = (Raise e, s') -> for_range (S n) body acc s = (Raise e, s').
Proof. intros H. simpl. now apply bind_Raise. Qed.

Lemma eg_pull_no_arms (w : world EpsilonGreedy.t) :
  EpsilonGreedy.true_means (self w) = [] ->
  EpsilonGreedy.action_values (self w) = [] ->
  exists w', EpsilonGreedy.pull w = (Raise ValueError, w') /\ self w' = self w.
Proof.
  intros Htm Hv.
  destruct (random_at (gen w) (calls w) ?= EpsilonGreedy.epsilon (self w))%Q eqn:E.
  2:{ rewrite eg_pull_explore by assumption. rewrite Htm.
      unfold random_randint. simpl. eauto. }
  all: rewrite eg_pull_greedy by congruence; unfold index_of_max; rewrite Hv;
    simpl; eauto.
Qed.

Lemma ts_pull_no_arms (w : world ThompsonSampling.t) :
  ThompsonSampling.true_means (self w) = [] ->
  ThompsonSampling.pull w = (Raise ValueError, w).
Proof.
  intros Htm. rewrite ts_pull_unfold.
  rewrite (bind_Ok get_self _ _ (self w) w) by reflexivity.
  rewrite Htm. reflexivity.
Qed.

(** X5. On an object without arms ([true_means] and the lists of its
    length empty), [pull] raises [ValueError] for both policies, and so does
    [experiment(num_trials)] for every [num_trials >= 1]; both [report]
    methods raise [ZeroDivisionError]. None of them changes the object. *)
Theorem no_arms_errors
    (we : world EpsilonGreedy.t) (wt : world ThompsonSampling.t) (num_trials : Z) :
  EpsilonGreedy.true_means (self we) = [] ->
  EpsilonGreedy.action_values (self we) = [] ->
  ThompsonSampling.true_means (self wt) = [] ->
  ThompsonSampling.alpha (self wt) = [] ->
  ThompsonSampling.beta (self wt) = [] ->
  1 <= num_trials ->
  (exists we', EpsilonGreedy.pull we = (Raise ValueError, we') /\ self we' = self we) /\
  ThompsonSampling.pull wt = (Raise ValueError, wt) /\
  (exists we', EpsilonGreedy.experiment num_trials we = (Raise ValueError, we')
               /\ self we' = self we) /\
  ThompsonSampling.experiment num_trials wt = (Raise ValueError, wt) /\
  EpsilonGreedy.report we = (Raise ZeroDivisionError, we) /\
  ThompsonSampling.report wt = (Raise ZeroDivisionError, wt).
Proof.
  intros Htm Hv Htm' Ha Hb Hn.
  destruct (eg_pull_no_arms we Htm Hv) as (we' & Hp & Hs).
  pose proof (ts_pull_no_arms wt Htm') as Hp'.
  destruct (Z.to_nat num_trials) as [|k] eqn:Ek; [lia|].
  split; [eauto|]. split; [exact Hp'|]. split; [|split; [|split]].
  - exists we'. split; [|exact Hs].
    unfold EpsilonGreedy.experiment. rewrite Ek.
    apply for_range_raise. now apply bind_Raise.
  - unfold ThompsonSampling.experiment. rewrite Ek.
    apply for_range_raise. now apply bind_Raise.
  - unfold EpsilonGreedy.report.
    rewrite (bind_Ok get_self _ _ (self we) we) by reflexivity.
    rewrite Hv. reflexivity.
  - unfold ThompsonSampling.report.
    rewrite (bind_Ok get_self _ _ (self wt) wt) by reflexivity.
    rewrite Ha, Hb. reflexivity.
Qed.

Lemma no_arms_errors_witness :
  ThompsonSampling.experiment 3 (World (ThompsonSampling.__init__ []) constant_gen 0)
  = (Raise ValueError, World (ThompsonSampling.__init__ []) constant_gen 0) /\
  EpsilonGreedy.report (World (EpsilonGreedy.__init__ [] 0%Q) constant_gen 0)
  = (Raise ZeroDivisionError, World (EpsilonGreedy.__init__ [] 0%Q) constant_gen 0).
Proof.
  destruct (no_arms_errors (World (EpsilonGreedy.__init__ [] 0%Q) constant_gen 0)
              (World (ThompsonSampling.__init__ []) constant_gen 0) 3)
    as (_ & _ & _ & Ht & He & _); try reflexivity.
  - lia.
  - split; assumption.
Defined.

(** ** Positive integers as rationals *)

Lemma inject_Z_pos z : 0 < z -> (0 < inject_Z z)%Q.
Proof. intros H. change 0%Q with (inject_Z 0). now rewrite <- Zlt_Qlt. Qed.

(** ** What [experiment] does to the object *)

Lemma trials_invariant {T} (pull : M (world T) Z) (update : Z -> Q -> M (world T) unit)
    (tmf : T -> list Q) (J : nat -> T -> Prop) :
  (forall i w arm w1 reward w2,
      J i (self w) ->
      pull w = (Ok arm, w1) ->
      getitem (tmf (self w1)) arm = Ok reward ->
      update arm reward w1 = (Ok tt, w2) ->
      J (S i) (self w2)) ->
  forall w tr w', trials pull update tmf w tr w' ->
  forall i, J i (self w) -> J (i + length tr)%nat (self w').
Proof.
  intros Hstep w tr w' H.
  induction H as [w|w arm w1 reward w2 tr w3 Hp Hg Hu _ IH]; intros i Hi.
  - simpl. now rewrite Nat.add_0_r.
  - simpl. rewrite <- Nat.add_succ_comm. apply IH. eapply Hstep; eassumption.
Qed.

Lemma eg_experiment_trials (w : world EpsilonGreedy.t) (num_trials : Z) :
  0 <= num_trials ->
  randint_in_range (gen w) ->
  eg_ready (self w) ->
  exists tr w',
    EpsilonGreedy.experiment num_trials w = (Ok (map snd tr), w') /\
    trials EpsilonGreedy.pull EpsilonGreedy.update EpsilonGreedy.true_means w tr w' /\
    trace_of (EpsilonGreedy.true_means (self w)) num_trials tr.
Proof.
  intros Hn Hg He.
  destruct (experiment_loop EpsilonGreedy.pull EpsilonGreedy.update
              EpsilonGreedy.true_means
              (fun w => randint_in_range (gen w) /\ eg_ready (self w)))
    with (n := Z.to_nat num_trials) (w := w) (rewards := @nil Q)
    as (tr & w' & Hrun & Htr & Htrace & _).
  - intros w0 [Hgw Hw]. pose proof Hw as (Hwf & Hne & _).
    destruct (eg_pull_arm w0 Hgw Hwf Hne) as (arm & k & Hp & Harm).
    exists arm, (drawn_by k w0).
    split; [exact Hp|]. split; [split; assumption|].
    split; [reflexivity | exact Harm].
  - intros w0 arm reward [Hgw Hw] Harm.
    destruct (eg_ready_update w0 arm reward Hw Harm) as (w2 & Hup & Hw2 & Hg2 & Htm).
    exists w2. rewrite Hg2.
    split; [exact Hup|]. split; [split; assumption | exact Htm].
  - split; assumption.
  - rewrite Z2Nat.id in Htrace by exact Hn.
    exists tr, w'. rewrite eg_experiment_loop. simpl in Hrun. auto.
Qed.

Lemma ts_experiment_trials (w : world ThompsonSampling.t) (num_trials : Z) :
  0 <= num_trials ->
  ts_ready (self w) ->
  exists tr w',
    ThompsonSampling.experiment num_trials w = (Ok (map snd tr), w') /\
    trials ThompsonSampling.pull ThompsonSampling.update ThompsonSampling.true_means
      w tr w' /\
    trace_of (ThompsonSampling.true_means (self w)) num_trials tr.
Proof.
  intros Hn Ht.
  destruct (experiment_loop ThompsonSampling.pull ThompsonSampling.update
              ThompsonSampling.true_means (fun w => ts_ready (self w)))
    with (n := Z.to_nat num_trials) (w := w) (rewards := @nil Q)
    as (tr & w' & Hrun & Htr & Htrace & _).
  - intros w0 Hw.
    destruct (ts_pull_arm w0 Hw) as (arm & k & Hp & Harm).
    exists arm, (drawn_by k w0).
    split; [exact Hp|]. split; [exact Hw|].
    split; [reflexivity | exact Harm].
  - intros w0 arm reward Hw Harm.
    destruct (ts_ready_update w0 arm reward Hw Harm) as (w2 & Hup & Hw2 & Htm).
    exists w2. split; [exact Hup|]. split; [exact Hw2 | exact Htm].
  - assumption.
  - rewrite Z2Nat.id in Htrace by exact Hn.
    exists tr, w'. rewrite ts_experiment_loop. simpl in Hrun. auto.
Qed.

(** One trial of [EpsilonGreedy]: the arm pulled is a position [k] of the
    lists, the reward is [true_means[k]], and the object is updated there. *)
Lemma eg_trial_step (w : world EpsilonGreedy.t) arm w1 reward w2 :
  eg_sound (self w) ->
  EpsilonGreedy.pull w = (Ok arm, w1) ->
  getitem (EpsilonGreedy.true_means (self w1)) arm = Ok reward ->
  EpsilonGreedy.update arm reward w1 = (Ok tt, w2) ->
  exists k c v,
    EpsilonGreedy.true_means (self w) !! k = Some reward /\
    EpsilonGreedy.action_counts (self w) !! k = Some c /\
    EpsilonGreedy.action_values (self w) !! k = Some v /\
    0 <= c /\
    self w2 = eg_updated k c v reward (self w).
Proof.
  intros [[Hlc Hlv] Hpos] Hp Hg Hu.
  assert (Hs : self w1 = self w).
  { pose proof (eg_pull_keeps (fun s => s) w) as [H _]. now rewrite Hp in H. }
  rewrite Hs in Hg. destruct (getitem_inv _ _ _ Hg) as (k & Hk & Ht).
  pose proof (py_index_lt _ _ _ Hk) as Hlt.
  destruct (lookup_lt_is_Some_2 (EpsilonGreedy.action_counts (self w)) k) as [c Hc];
    [lia|].
  destruct (lookup_lt_is_Some_2 (EpsilonGreedy.action_values (self w)) k) as [v Hv];
    [lia|].
  pose proof (Forall_lookup_1 _ _ _ _ Hpos Hc) as Hc0. simpl in Hc0.
  exists k, c, v. repeat split; try assumption.
  destruct w1 as [s1 g1 n1]. simpl in Hs. subst s1.
  rewrite (eg_update_Ok (self w) g1 n1 arm reward k c v) in Hu;
    [now injection Hu as <- | congruence | now rewrite Hlc | assumption
     | assumption | lia].
Qed.

Lemma ts_trial_step (w : world ThompsonSampling.t) arm w1 reward w2 :
  ts_wf (self w) ->
  ThompsonSampling.pull w = (Ok arm, w1) ->
  getitem (ThompsonSampling.true_means (self w1)) arm = Ok reward ->
  ThompsonSampling.update arm reward w1 = (Ok tt, w2) ->
  exists k,
    ThompsonSampling.true_means (self w) !! k = Some reward /\
    self w2 = ts_updated k reward (self w).
Proof.
  intros [Hla Hlb] Hp Hg Hu.
  assert (Hs : self w1 = self w).
  { pose proof (ts_pull_keeps (fun s => s) w) as [H _]. now rewrite Hp in H. }
  rewrite Hs in Hg. destruct (getitem_inv _ _ _ Hg) as (k & Hk & Ht).
  exists k. split; [exact Ht|].
  destruct w1 as [s1 g1 n1]. simpl in Hs. subst s1.
  rewrite (ts_update_Ok (self w) g1 n1 arm reward k) in Hu;
    [now injection Hu as <- | congruence | now rewrite Hla].
Qed.

Lemma eg_updated_sound k c v reward s :
  eg_sound s -> 0 <= c -> eg_sound (eg_updated k c v reward s).
Proof.
  intros [[Hlc Hlv] Hpos] Hc. split; [split|].
  - change (length (<[k:=c + 1]> (EpsilonGreedy.action_counts s))
            = length (EpsilonGreedy.true_means s)).
    now rewrite length_insert.
  - change (length (<[k:=(v + 1 / inject_Z (c + 1) * (reward - v))%Q]>
                      (EpsilonGreedy.action_values s))
            = length (EpsilonGreedy.true_means s)).
    now rewrite length_insert.
  - change (Forall (fun c => 0 <= c) (<[k:=c + 1]> (EpsilonGreedy.action_counts s))).
    apply Forall_insert; [exact Hpos | lia].
Qed.

Lemma ts_updated_wf k reward s : ts_wf s -> ts_wf (ts_updated k reward s).
Proof.
  intros [Hla Hlb]. unfold ts_wf, ts_updated.
  destruct (Qeq_bool reward 1); simpl; rewrite ?length_alter; auto.
Qed.

Lemma sumZ_alter_succ (l : list Z) k :
  (k < length l)%nat -> sumZ (alter (fun x => x + 1) k l) = sumZ l + 1.
Proof.
  intros H. destruct (lookup_lt_is_Some_2 l k H) as [x Hx].
  rewrite <- (insert_as_alter (fun x => x + 1) l k x Hx).
  now apply sumZ_insert.
Qed.

(** X8. Under the conditions of a run ([num_trials >= 0], at least one
    arm, a sound object, [randint(a, b)] in [[a, b]]), [experiment(num_trials)]
    adds exactly [num_trials] to the sum of [action_counts] of an
    [EpsilonGreedy] object, and exactly [num_trials] to
    [sum(alpha) + sum(beta)] of a [ThompsonSampling] object. *)
Theorem experiment_counts_trials
    (we : world EpsilonGreedy.t) (wt : world ThompsonSampling.t) (num_trials : Z) :
  0 <= num_trials ->
  randint_in_range (gen we) ->
  eg_ready (self we) ->
  ts_ready (self wt) ->
  (exists rewards we',
      EpsilonGreedy.experiment num_trials we = (Ok rewards, we') /\
      sumZ (EpsilonGreedy.action_counts (self we'))
      = sumZ (EpsilonGreedy.action_counts (self we)) + num_trials) /\
  (exists rewards wt',
      ThompsonSampling.experiment num_trials wt = (Ok rewards, wt') /\
      sumZ (ThompsonSampling.alpha (self wt')) + sumZ (ThompsonSampling.beta (self wt'))
      = sumZ (ThompsonSampling.alpha (self wt)) + sumZ (ThompsonSampling.beta (self wt))
        + num_trials).
Proof.
  intros Hn Hg He Ht. split.
  - destruct (eg_experiment_trials we num_trials Hn Hg He) as (tr & we' & Hrun & Htr & [Hlen _]).
    exists (map snd tr), we'. split; [exact Hrun|].
    destruct (trials_invariant EpsilonGreedy.pull EpsilonGreedy.update
                EpsilonGreedy.true_means
                (fun i s => eg_sound s /\
                   sumZ (EpsilonGreedy.action_counts s)
                   = sumZ (EpsilonGreedy.action_counts (self we)) + Z.of_nat i))
      with (w := we) (tr := tr) (w' := we') (i := 0%nat) as [_ Hsum];
      [ | exact Htr | | ].
    + intros i w arm w1 reward w2 [Hs Hi] Hp Hgt Hu.
      destruct (eg_trial_step w arm w1 reward w2 Hs Hp Hgt Hu)
        as (k & c & v & _ & Hc & _ & Hc0 & ->).
      split; [now apply eg_updated_sound|].
      change (EpsilonGreedy.action_counts (eg_updated k c v reward (self w)))
        with (<[k := c + 1]> (EpsilonGreedy.action_counts (self w))).
      rewrite (sumZ_insert _ _ _ 1 Hc), Hi. lia.
    + destruct He as (Hwf & _ & Hpos). split; [split; assumption | lia].
    + rewrite Hsum. unfold len in Hlen. simpl. lia.
  - destruct (ts_experiment_trials wt num_trials Hn Ht) as (tr & wt' & Hrun & Htr & [Hlen _]).
    exists (map snd tr), wt'. split; [exact Hrun|].
    destruct (trials_invariant ThompsonSampling.pull ThompsonSampling.update
                ThompsonSampling.true_means
                (fun i s => ts_wf s /\
                   sumZ (ThompsonSampling.alpha s) + sumZ (ThompsonSampling.beta s)
                   = sumZ (ThompsonSampling.alpha (self wt))
                     + sumZ (ThompsonSampling.beta (self wt)) + Z.of_nat i))
      with (w := wt) (tr := tr) (w' := wt') (i := 0%nat) as [_ Hsum];
      [ | exact Htr | | ].
    + intros i w arm w1 reward w2 [Hs Hi] Hp Hgt Hu.
      destruct (ts_trial_step w arm w1 reward w2 Hs Hp Hgt Hu) as (k & Hk & ->).
      split; [now apply ts_updated_wf|].
      destruct Hs as [Hla Hlb]. apply lookup_lt_Some in Hk.
      unfold ts_updated. destruct (Qeq_bool reward 1); simpl;
        rewrite sumZ_alter_succ by lia; lia.
    + destruct Ht as (Hwf & _). split; [exact Hwf | lia].
    + rewrite Hsum. unfold len in Hlen. simpl. lia.
Qed.

Lemma experiment_counts_trials_witness :
  (exists rewards we',
      EpsilonGreedy.experiment 5
        (World (EpsilonGreedy.__init__ true_means EpsilonGreedy.default_epsilon)
           constant_gen 0) = (Ok rewards, we') /\
      sumZ (EpsilonGreedy.action_counts (self we')) = 5) /\
  (exists rewards wt',
      ThompsonSampling.experiment 5
        (World (ThompsonSampling.__init__ true_means) constant_gen 0)
      = (Ok rewards, wt') /\
      sumZ (ThompsonSampling.alpha (self wt')) + sumZ (ThompsonSampling.beta (self wt'))
      = 13).
Proof.
  destruct (experiment_counts_trials
              (World (EpsilonGreedy.__init__ true_means EpsilonGreedy.default_epsilon)
                 constant_gen 0)
              (World (ThompsonSampling.__init__ true_means) constant_gen 0) 5)
    as [(r1 & w1 & H1 & S1) (r2 & w2 & H2 & S2)].
  - lia.
  - intros n a b H. simpl. lia.
  - apply eg_ready_init. discriminate.
  - apply ts_ready_init. discriminate.
  - split; [exists r1, w1 | exists r2, w2]; split; assumption.
Defined.

Lemma eg_exact_init tm eps : eg_exact (EpsilonGreedy.__init__ tm eps).
Proof.
  split; [apply eg_sound_init|].
  intros k c v t Hc Hv _. left.
  change (replicate (length tm) 0 !! k = Some c) in Hc.
  change (replicate (length tm) 0%Q !! k = Some v) in Hv.
  apply lookup_replicate in Hc as [-> _]. apply lookup_replicate in Hv as [-> _].
  split; reflexivity.
Qed.

Lemma eg_exact_updated k c v reward s :
  eg_exact s ->
  EpsilonGreedy.true_means s !! k = Some reward ->
  EpsilonGreedy.action_counts s !! k = Some c ->
  EpsilonGreedy.action_values s !! k = Some v ->
  eg_exact (eg_updated k c v reward s).
Proof.
  intros [Hs Hall] Ht Hc Hv.
  assert (Hc0 : 0 <= c).
  { destruct Hs as [_ Hpos]. exact (Forall_lookup_1 _ _ _ _ Hpos Hc). }
  split; [now apply eg_updated_sound|].
  intros j c' v' t'.
  change (EpsilonGreedy.action_counts (eg_updated k c v reward s))
    with (<[k := c + 1]> (EpsilonGreedy.action_counts s)).
  change (EpsilonGreedy.action_values (eg_updated k c v reward s))
    with (<[k := (v + 1 / inject_Z (c + 1) * (reward - v))%Q]>
            (EpsilonGreedy.action_values s)).
  change (EpsilonGreedy.true_means (eg_updated k c v reward s))
    with (EpsilonGreedy.true_means s).
  destruct (decide (k = j)) as [<-|Hne].
  - rewrite !list_lookup_insert_eq
      by (eapply lookup_lt_Some; eassumption).
    intros [= <-] [= <-] Ht'. rewrite Ht in Ht'. injection Ht' as <-.
    right. split; [lia|].
    assert (Hnz : ~ (inject_Z (c + 1) == 0)%Q).
    { change 0%Q with (inject_Z 0). rewrite inject_Z_injective. lia. }
    destruct (Hall k c v reward Hc Hv Ht) as [[-> H0]|[_ Heq]].
    + change (inject_Z (0 + 1)) with 1%Q. field.
    + rewrite Heq. field. exact Hnz.
  - rewrite !list_lookup_insert_ne by exact Hne. apply Hall.
Qed.

(** X9. An [experiment] on a fresh [EpsilonGreedy] object with at least one
    arm (and [randint(a, b)] in [[a, b]]) leaves exact estimates: an arm
    with count [0] has value [0], and an arm with a positive count has its
    true mean as value, since every reward it received is that mean. *)
Theorem eg_experiment_estimates_exact
    (tm : list Q) (eps : Q) (g : Random) (n : nat) (num_trials : Z) :
  0 <= num_trials ->
  randint_in_range g ->
  tm <> [] ->
  exists rewards w',
    EpsilonGreedy.experiment num_trials (World (EpsilonGreedy.__init__ tm eps) g n)
    = (Ok rewards, w') /\
    forall a, 0 <= a < len tm ->
      exists c v t,
        EpsilonGreedy.action_counts (self w') !! Z.to_nat a = Some c /\
        EpsilonGreedy.action_values (self w') !! Z.to_nat a = Some v /\
        tm !! Z.to_nat a = Some t /\
        ((c = 0 /\ (v == 0)%Q) \/ (0 < c /\ (v == t)%Q)).
Proof.
  intros Hn Hg Hne.
  set (w := World (EpsilonGreedy.__init__ tm eps) g n).
  destruct (eg_experiment_trials w num_trials Hn Hg (eg_ready_init tm eps Hne))
    as (tr & w' & Hrun & Htr & _).
  exists (map snd tr), w'. split; [exact Hrun|].
  destruct (trials_invariant EpsilonGreedy.pull EpsilonGreedy.update
              EpsilonGreedy.true_means
              (fun _ s => eg_exact s /\ EpsilonGreedy.true_means s = tm))
    with (w := w) (tr := tr) (w' := w') (i := 0%nat) as [[Hs Hall] Htm];
    [ | exact Htr | split; [apply eg_exact_init | reflexivity] | ].
  - intros _ w0 arm w1 reward w2 [Hex Htm0] Hp Hgt Hu.
    destruct (eg_trial_step w0 arm w1 reward w2 (proj1 Hex) Hp Hgt Hu)
      as (k & c & v & Ht & Hc & Hv & _ & ->).
    split; [now apply eg_exact_updated | exact Htm0].
  - intros a Ha. destruct Hs as [[Hlc Hlv] _]. rewrite Htm in Hlc, Hlv.
    destruct (lookup_lt_is_Some_2 (EpsilonGreedy.action_counts (self w')) (Z.to_nat a))
      as [c Hc]; [unfold len in Ha; lia|].
    destruct (lookup_lt_is_Some_2 (EpsilonGreedy.action_values (self w')) (Z.to_nat a))
      as [v Hv]; [unfold len in Ha; lia|].
    destruct (lookup_lt_is_Some_2 tm (Z.to_nat a)) as [t Ht]; [unfold len in Ha; lia|].
    exists c, v, t. repeat split; try assumption.
    apply (Hall (Z.to_nat a)); [assumption | assumption | now rewrite Htm].
Qed.

Lemma eg_experiment_estimates_exact_witness :
  exists rewards w',
    EpsilonGreedy.experiment 4
      (World (EpsilonGreedy.__init__ true_means EpsilonGreedy.default_epsilon)
         constant_gen 0) = (Ok rewards, w') /\
    exists c v,
      EpsilonGreedy.action_counts (self w') !! 0%nat = Some c /\
      EpsilonGreedy.action_values (self w') !! 0%nat = Some v /\
      ((c = 0 /\ (v == 0)%Q) \/ (0 < c /\ (v == 1)%Q)).
Proof.
  destruct (eg_experiment_estimates_exact true_means EpsilonGreedy.default_epsilon
              constant_gen 0 4) as (r & w' & Hrun & Hall).
  - lia.
  - intros n a b H. simpl. lia.
  - discriminate.
  - exists r, w'. split; [exact Hrun|].
    destruct (Hall 0) as (c & v & t & Hc & Hv & Ht & H).
    + unfold len; simpl; lia.
    + simpl in Ht. injection Ht as <-. exists c, v. auto.
Defined.

Lemma ts_split_init tm : ts_split (ThompsonSampling.__init__ tm).
Proof.
  split; [apply ts_wf_init|].
  intros k t Ht. apply lookup_lt_Some in Ht.
  change (ThompsonSampling.true_means (ThompsonSampling.__init__ tm)) with tm in Ht.
  split; intros _; apply lookup_replicate_2; exact Ht.
Qed.

Lemma ts_split_updated k reward s :
  ts_split s ->
  ThompsonSampling.true_means s !! k = Some reward ->
  ts_split (ts_updated k reward s).
Proof.
  intros [Hwf Hall] Ht. split; [now apply ts_updated_wf|].
  assert (Htm : ThompsonSampling.true_means (ts_updated k reward s)
                = ThompsonSampling.true_means s).
  { unfold ts_updated. now destruct (Qeq_bool reward 1). }
  rewrite Htm. intros j t Hj. destruct (Hall j t Hj) as [H1 H0].
  unfold ts_updated. destruct (Qeq_bool reward 1) eqn:E; simpl.
  - split; [exact H1|]. intros Hf.
    destruct (decide (k = j)) as [<-|Hne]; [congruence|].
    rewrite list_lookup_alter_ne by exact Hne. now apply H0.
  - split; [|exact H0]. intros Hf.
    destruct (decide (k = j)) as [<-|Hne]; [congruence|].
    rewrite list_lookup_alter_ne by exact Hne. now apply H1.
Qed.

(** X10. An [experiment] on a fresh [ThompsonSampling] object with at
    least one arm only ever records a success for an arm whose true mean is
    equal to [1]: afterwards [beta] is still [1] on those arms, and [alpha] is
    still [1] on every other arm. *)
Theorem ts_experiment_success_only_mean_one
    (tm : list Q) (g : Random) (n : nat) (num_trials : Z) :
  0 <= num_trials ->
  tm <> [] ->
  exists rewards w',
    ThompsonSampling.experiment num_trials (World (ThompsonSampling.__init__ tm) g n)
    = (Ok rewards, w') /\
    forall k t, tm !! k = Some t ->
      ((t == 1)%Q -> ThompsonSampling.beta (self w') !! k = Some 1) /\
      (~ (t == 1)%Q -> ThompsonSampling.alpha (self w') !! k = Some 1).
Proof.
  intros Hn Hne.
  set (w := World (ThompsonSampling.__init__ tm) g n).
  destruct (ts_experiment_trials w num_trials Hn (ts_ready_init tm Hne))
    as (tr & w' & Hrun & Htr & _).
  exists (map snd tr), w'. split; [exact Hrun|].
  destruct (trials_invariant ThompsonSampling.pull ThompsonSampling.update
              ThompsonSampling.true_means
              (fun _ s => ts_split s /\ ThompsonSampling.true_means s = tm))
    with (w := w) (tr := tr) (w' := w') (i := 0%nat) as [[_ Hall] Htm];
    [ | exact Htr | split; [apply ts_split_init | reflexivity] | ].
  - intros _ w0 arm w1 reward w2 [Hsp Htm0] Hp Hgt Hu.
    destruct (ts_trial_step w0 arm w1 reward w2 (proj1 Hsp) Hp Hgt Hu)
      as (k & Ht & ->).
    split; [now apply ts_split_updated|].
    unfold ts_updated. now destruct (Qeq_bool reward 1).
  - intros k t Ht. rewrite <- Htm in Ht. destruct (Hall k t Ht) as [H1 H0].
    split; intros H.
    + apply H1. now apply Qeq_bool_iff.
    + apply H0. destruct (Qeq_bool t 1) eqn:E; [|reflexivity].
      apply Qeq_bool_iff in E. contradiction.
Qed.

Lemma ts_experiment_success_only_mean_one_witness :
  exists rewards w',
    ThompsonSampling.experiment 6
      (World (ThompsonSampling.__init__ true_means) constant_gen 0) = (Ok rewards, w') /\
    ThompsonSampling.beta (self w') !! 0%nat = Some 1 /\
    ThompsonSampling.alpha (self w') !! 3%nat = Some 1.
Proof.
  destruct (ts_experiment_success_only_mean_one true_means constant_gen 0 6)
    as (r & w' & Hrun & Hall).
  - lia.
  - discriminate.
  - exists r, w'. split; [exact Hrun|]. split.
    + apply (Hall 0%nat 1%Q); reflexivity.
    + apply (Hall 3%nat 4%Q); [reflexivity|]. vm_compute. discriminate.
Defined.

(** ** The greedy policy on a fresh object *)

Lemma fold_max_zeros (k : nat) (v : Q) :
  (0 <= v)%Q -> fold_left max_step (replicate k 0%Q) v = v.
Proof.
  intros Hv. induction k as [|k IH]; [reflexivity|].
  change (replicate (S k) 0%Q) with (0%Q :: replicate k 0%Q). simpl.
  destruct (max_step_spec v 0) as [[-> _]|[_ H]]; [exact IH | lra].
Qed.

Lemma index_of_max_head (k : nat) (v : Q) :
  (0 <= v)%Q -> index_of_max (v :: replicate k 0%Q) = Ok 0.
Proof.
  intros Hv. unfold index_of_max. simpl. rewrite (fold_max_zeros k v Hv).
  unfold index. simpl.
  assert (E : Qeq_bool v v = true) by (apply Qeq_bool_iff; reflexivity).
  now rewrite E.
Qed.

Lemma running_mean_nonneg (v t : Q) (c : Z) :
  0 <= c -> (0 <= v)%Q -> (0 <= t)%Q ->
  (0 <= v + 1 / inject_Z (c + 1) * (t - v))%Q.
Proof.
  intros Hc Hv Ht.
  assert (Hpos : (0 < inject_Z (c + 1))%Q) by (apply inject_Z_pos; lia).
  assert (Hc' : (0 <= inject_Z c)%Q).
  { change 0%Q with (inject_Z 0). rewrite <- Zle_Qle. exact Hc. }
  assert (E : (v + 1 / inject_Z (c + 1) * (t - v)
               == (v * inject_Z c + t) / inject_Z (c + 1))%Q).
  { rewrite inject_Z_plus. change (inject_Z 1) with 1%Q.
    rewrite inject_Z_plus in Hpos. change (inject_Z 1) with 1%Q in Hpos.
    field. lra. }
  rewrite E. apply Qle_shift_div_l; [exact Hpos|].
  rewrite Qmult_0_l.
  pose proof (Qmult_le_0_compat _ _ Hv Hc'). lra.
Qed.

Lemma eg_first_only_trial t0 rest c (w : world EpsilonGreedy.t) rewards :
  random_in_unit (gen w) ->
  (0 <= t0)%Q ->
  eg_first_only t0 rest c (self w) ->
  exists w2,
    trial EpsilonGreedy.pull EpsilonGreedy.update EpsilonGreedy.true_means rewards w
    = (Ok (rewards ++ [t0]), w2) /\
    gen w2 = gen w /\ eg_first_only t0 rest (c + 1) (self w2).
Proof.
  intros Hg Ht0 (Htm & Heps & Hcs & Hc0 & v & Hvs & Hv0).
  assert (Hpull : EpsilonGreedy.pull w = (Ok 0, drawn w)).
  { rewrite eg_pull_greedy.
    - rewrite Hvs. now rewrite index_of_max_head.
    - intros E. apply Qlt_alt in E. destruct (Hg (calls w)) as [H0 _]. lra. }
  assert (Hget : getitem (EpsilonGreedy.true_means (self w)) 0 = Ok t0).
  { eapply getitem_Ok; [apply py_index_in_range|].
    - rewrite Htm. simpl. lia.
    - rewrite Htm. reflexivity. }
  assert (Hup : EpsilonGreedy.update 0 t0 (drawn w)
                = (Ok tt, World (eg_updated 0 c v t0 (self w)) (gen w) (S (calls w)))).
  { apply eg_update_Ok.
    - rewrite Hcs, Hvs. simpl. now rewrite !length_replicate.
    - apply py_index_in_range. rewrite Hcs. simpl. lia.
    - rewrite Hcs. reflexivity.
    - rewrite Hvs. reflexivity.
    - lia. }
  eexists. split; [|split].
  - unfold trial.
    rewrite (bind_Ok _ _ _ _ _ Hpull).
    rewrite (bind_Ok get_self _ _ (self w) (drawn w)) by reflexivity.
    rewrite (bind_Ok _ _ _ t0 (drawn w)) by (unfold lift; now rewrite Hget).
    rewrite (bind_Ok _ _ _ _ _ Hup). reflexivity.
  - reflexivity.
  - simpl. unfold eg_first_only.
    change (EpsilonGreedy.true_means (eg_updated 0 c v t0 (self w)))
      with (EpsilonGreedy.true_means (self w)).
    change (EpsilonGreedy.epsilon (eg_updated 0 c v t0 (self w)))
      with (EpsilonGreedy.epsilon (self w)).
    change (EpsilonGreedy.action_counts (eg_updated 0 c v t0 (self w)))
      with (<[0%nat := c + 1]> (EpsilonGreedy.action_counts (self w))).
    change (EpsilonGreedy.action_values (eg_updated 0 c v t0 (self w)))
      with (<[0%nat := (v + 1 / inject_Z (c + 1) * (t0 - v))%Q]>
              (EpsilonGreedy.action_values (self w))).
    rewrite Hcs, Hvs. simpl.
    repeat split; try assumption; try lia.
    eexists. split; [reflexivity|]. now apply running_mean_nonneg.
Qed.

Lemma eg_first_only_loop t0 rest (k : nat) : forall c (w : world EpsilonGreedy.t) rewards,
  random_in_unit (gen w) ->
  (0 <= t0)%Q ->
  eg_first_only t0 rest c (self w) ->
  exists w',
    for_range k
      (trial EpsilonGreedy.pull EpsilonGreedy.update EpsilonGreedy.true_means)
      rewards w
    = (Ok (rewards ++ replicate k t0), w') /\
    eg_first_only t0 rest (c + Z.of_nat k) (self w').
Proof.
  induction k as [|k IH]; intros c w rewards Hg Ht0 Hw.
  - exists w. simpl. rewrite app_nil_r, Z.add_0_r. auto.
  - destruct (eg_first_only_trial t0 rest c w rewards Hg Ht0 Hw) as (w2 & Htrial & Hg2 & Hw2).
    rewrite <- Hg2 in Hg.
    destruct (IH (c + 1) w2 (rewards ++ [t0]) Hg Ht0 Hw2) as (w' & Hrun & Hw').
    exists w'. split.
    + change (for_range (S k) ?b rewards) with (let* acc := b rewards in for_range k b acc).
      rewrite (bind_Ok _ _ _ _ _ Htrial), Hrun.
      now rewrite <- app_assoc.
    + replace (c + Z.of_nat (S k)) with (c + 1 + Z.of_nat k) by lia. exact Hw'.
Qed.

(** X11. With [epsilon = 0], a first true mean that is not negative and
    [random()] in [[0, 1)], [experiment] on a fresh [EpsilonGreedy] object
    pulls the first arm at every trial: every reward returned is
    [true_means[0]], the count of the first arm is [num_trials], and no other
    arm is ever tried, however large its true mean. *)
Theorem eg_greedy_first_arm_only
    (t0 : Q) (rest : list Q) (eps : Q) (g : Random) (n : nat) (num_trials : Z) :
  random_in_unit g ->
  (eps == 0)%Q ->
  (0 <= t0)%Q ->
  0 <= num_trials ->
  exists w',
    EpsilonGreedy.experiment num_trials
      (World (EpsilonGreedy.__init__ (t0 :: rest) eps) g n)
    = (Ok (replicate (Z.to_nat num_trials) t0), w') /\
    EpsilonGreedy.action_counts (self w') = num_trials :: replicate (length rest) 0 /\
    exists v, EpsilonGreedy.action_values (self w')
              = v :: replicate (length rest) 0%Q.
Proof.
  intros Hg He Ht0 Hn.
  destruct (eg_first_only_loop t0 rest (Z.to_nat num_trials) 0
              (World (EpsilonGreedy.__init__ (t0 :: rest) eps) g n) [] Hg Ht0)
    as (w' & Hrun & Htm & _ & Hcs & _ & v & Hvs & _).
  - repeat split; try assumption; try reflexivity; try lia.
    exists 0%Q. split; [reflexivity | lra].
  - exists w'. rewrite eg_experiment_loop. split; [exact Hrun|].
    split; [|eauto]. rewrite Hcs. f_equal. lia.
Qed.

Lemma eg_greedy_first_arm_only_witness :
  exists w',
    EpsilonGreedy.experiment 100
      (World (EpsilonGreedy.__init__ true_means 0%Q) constant_gen 0)
    = (Ok (replicate 100 1%Q), w') /\
    EpsilonGreedy.action_counts (self w') = [100; 0; 0; 0].
Proof.
  destruct (eg_greedy_first_arm_only 1%Q [2; 3; 4]%Q 0%Q constant_gen 0 100)
    as (w' & Hrun & Hcs & _).
  - intros k. simpl. lra.
  - reflexivity.
  - lra.
  - lia.
  - exists w'. split; [exact Hrun | exact Hcs].
Defined.

(** ** [ThompsonSampling.pull]: the samples and their maximum *)

Lemma ts_sample_value (w : world ThompsonSampling.t) i :
  ts_ready (self w) -> 0 <= i < len (ThompsonSampling.true_means (self w)) ->
  exists a b,
    ThompsonSampling.alpha (self w) !! Z.to_nat i = Some a /\
    ThompsonSampling.beta (self w) !! Z.to_nat i = Some b /\
    ts_sample i w = (Ok (betavariate_at (gen w) (calls w) a b), drawn w).
Proof.
  intros ([Hla Hlb] & _ & Hpa & Hpb) Hi.
  destruct (getitem_in_range (ThompsonSampling.alpha (self w)) i) as (a & Ha & Hga).
  { unfold len in *. now rewrite Hla. }
  destruct (getitem_in_range (ThompsonSampling.beta (self w)) i) as (b & Hb & Hgb).
  { unfold len in *. now rewrite Hlb. }
  pose proof (Forall_lookup_1 _ _ _ _ Hpa Ha) as Ha0.
  pose proof (Forall_lookup_1 _ _ _ _ Hpb Hb) as Hb0.
  simpl in Ha0, Hb0.
  exists a, b. split; [exact Ha|]. split; [exact Hb|].
  unfold ts_sample.
  rewrite (bind_Ok get_self _ _ (self w) w) by reflexivity.
  rewrite (bind_Ok _ _ _ a w) by (unfold lift; now rewrite Hga).
  rewrite (bind_Ok _ _ _ b w) by (unfold lift; now rewrite Hgb).
  unfold random_betavariate.
  destruct (Z.leb_spec a 0); [lia|]. destruct (Z.leb_spec b 0); [lia|].
  reflexivity.
Qed.

Lemma ts_samples_values (l : list Z) : forall w : world ThompsonSampling.t,
  ts_ready (self w) ->
  Forall (fun i => 0 <= i < len (ThompsonSampling.true_means (self w))) l ->
  exists samples,
    list_comp ts_sample l w = (Ok samples, drawn_by (length l) w) /\
    length samples = length l /\
    forall j i, l !! j = Some i ->
      exists a b,
        ThompsonSampling.alpha (self w) !! Z.to_nat i = Some a /\
        ThompsonSampling.beta (self w) !! Z.to_nat i = Some b /\
        samples !! j = Some (betavariate_at (gen w) (calls w + j) a b).
Proof.
  induction l as [|i l IH]; intros w Hr Hl.
  - exists []. split; [|split; [reflexivity|]].
    + simpl. unfold ret, drawn_by. destruct w; simpl. repeat f_equal. lia.
    + intros j i H. destruct j; discriminate.
  - apply Forall_cons in Hl as [Hi Hl].
    destruct (ts_sample_value w i Hr Hi) as (a & b & Ha & Hb & Hx).
    destruct (IH (drawn w) Hr Hl) as (xs & Hxs & Hlen & Hvals).
    exists (betavariate_at (gen w) (calls w) a b :: xs). split; [|split].
    + simpl. rewrite (bind_Ok _ _ _ _ _ Hx). rewrite (bind_Ok _ _ _ _ _ Hxs).
      unfold ret, drawn_by, drawn. simpl. repeat f_equal. lia.
    + simpl. now rewrite Hlen.
    + intros [|j] i' H; simpl in H.
      * injection H as <-. exists a, b. rewrite Nat.add_0_r. auto.
      * destruct (Hvals j i' H) as (a' & b' & Ha' & Hb' & Hs).
        exists a', b'. split; [exact Ha'|]. split; [exact Hb'|].
        simpl in Hs. simpl. rewrite Hs. repeat f_equal. lia.
Qed.

(** X12. On a [ThompsonSampling] object with at least one arm and positive
    [alpha] and [beta], [pull] makes exactly [K] draws, arm [j] being sampled
    by the [j]-th draw with shape parameters [alpha[j]] and [beta[j]], and
    returns the smallest index whose sample is maximal. *)
Theorem ts_pull_first_max_sample (w : world ThompsonSampling.t) :
  ts_ready (self w) ->
  exists samples k v,
    ThompsonSampling.pull w
    = (Ok (Z.of_nat k),
       drawn_by (length (ThompsonSampling.true_means (self w))) w) /\
    length samples = length (ThompsonSampling.true_means (self w)) /\
    (forall j, (j < length samples)%nat ->
       exists a b,
         ThompsonSampling.alpha (self w) !! j = Some a /\
         ThompsonSampling.beta (self w) !! j = Some b /\
         samples !! j = Some (betavariate_at (gen w) (calls w + j) a b)) /\
    samples !! k = Some v /\
    (forall j y, samples !! j = Some y -> (y <= v)%Q) /\
    (forall j y, (j < k)%nat -> samples !! j = Some y -> (y < v)%Q).
Proof.
  intros Hr. pose proof Hr as (_ & Hne & _).
  apply nonempty_length in Hne.
  destruct (ts_samples_values (range (len (ThompsonSampling.true_means (self w)))) w Hr)
    as (xs & Hxs & Hlen & Hvals).
  { unfold range. apply Forall_seqZ. intros; lia. }
  unfold range in Hlen, Hxs. rewrite length_seqZ in Hlen, Hxs.
  unfold len in Hlen, Hxs at 2. rewrite Nat2Z.id in Hlen, Hxs.
  assert (Hxne : xs <> []).
  { apply nonempty_length. unfold len in *. lia. }
  destruct (index_max_first xs Hxne) as (m & k & v & Hm & Hi & Hk & Hmax & Hfirst).
  exists xs, k, v. split; [|split; [exact Hlen|split; [|auto]]].
  - rewrite ts_pull_unfold.
    rewrite (bind_Ok get_self _ _ (self w) w) by reflexivity.
    unfold range. rewrite (bind_Ok _ _ _ _ _ Hxs).
    erewrite (bind_Ok (lift (py_max xs))) by (unfold lift; now rewrite Hm).
    unfold lift. rewrite Hi. reflexivity.
  - intros j Hj.
    destruct (Hvals j (Z.of_nat j)) as (a & b & Ha & Hb & Hs).
    { unfold range. rewrite lookup_seqZ. unfold len. split; lia. }
    rewrite Nat2Z.id in Ha, Hb. eauto.
Qed.

Lemma ts_pull_first_max_sample_witness :
  ThompsonSampling.pull (World (ThompsonSampling.__init__ true_means) constant_gen 0)
  = (Ok 0, World (ThompsonSampling.__init__ true_means) constant_gen 4).
Proof.
  destruct (ts_pull_first_max_sample
              (World (ThompsonSampling.__init__ true_means) constant_gen 0))
    as (xs & k & v & Hp & _).
  - apply ts_ready_init. discriminate.
  - assert (E : fst (ThompsonSampling.pull
                       (World (ThompsonSampling.__init__ true_means) constant_gen 0))
                = Ok 0) by reflexivity.
    rewrite Hp in E. simpl in E. injection E as E.
    rewrite Hp. rewrite E. reflexivity.
Defined.

(** ** The visualisation: curves and table *)

Lemma slice_to_take {A} (l : list A) (j : nat) :
  slice_to l (Z.of_nat j + 1) = take (S j) l.
Proof.
  unfold slice_to. destruct (Z.ltb_spec (Z.of_nat j + 1) 0); [lia|].
  f_equal. lia.
Qed.

Lemma cumulative_lookup (rewards : list Q) (j : nat) :
  (j < length rewards)%nat ->
  Visualization.cumulative rewards !! j = Some (sumQ (take (S j) rewards)).
Proof.
  intros Hj. unfold Visualization.cumulative, range.
  change (map ?f ?l) with (f <$> l). rewrite list_lookup_fmap.
  rewrite lookup_seqZ_lt by (unfold len; lia). simpl.
  now rewrite Z.add_0_l, slice_to_take.
Qed.

Lemma cumulative_length (rewards : list Q) :
  length (Visualization.cumulative rewards) = length rewards.
Proof.
  unfold Visualization.cumulative, range. rewrite length_map, length_seqZ.
  unfold len. lia.
Qed.

(** X13. The curve that [plot2] draws for a reward sequence has one point
    per trial; its point [j] is the sum of the first [j + 1] rewards, each
    point is the previous one plus the reward of its trial, and the last
    point is the total [sum(rewards)] that the reporter prints. *)
Theorem plot2_cumulative_sums (epsilon_greedy_rewards thompson_rewards : list Q) :
  let curve := Visualization.cumulative in
  Visualization.plot2 epsilon_greedy_rewards thompson_rewards
  = ((range (len epsilon_greedy_rewards), curve epsilon_greedy_rewards),
     (range (len thompson_rewards), curve thompson_rewards)) /\
  forall rewards : list Q,
    length (curve rewards) = length rewards /\
    (forall j, (j < length rewards)%nat ->
       curve rewards !! j = Some (sumQ (take (S j) rewards))) /\
    (forall j y r, curve rewards !! j = Some y -> rewards !! S j = Some r ->
       curve rewards !! S j = Some (y + r)%Q) /\
    (rewards <> [] -> last (curve rewards) = Some (sumQ rewards)).
Proof.
  intros curve. split.
  - unfold Visualization.plot2. unfold len. now rewrite !cumulative_length.
  - intros rewards. split; [apply cumulative_length|]. split; [|split].
    + intros j Hj. now apply cumulative_lookup.
    + intros j y r Hy Hr.
      pose proof (lookup_lt_Some _ _ _ Hr) as HSj.
      unfold curve in *. rewrite cumulative_lookup in Hy by lia.
      injection Hy as <-. rewrite cumulative_lookup by exact HSj.
      rewrite (take_S_r _ _ _ Hr). now rewrite sumQ_snoc.
    + intros Hne. rewrite last_lookup. unfold curve.
      rewrite cumulative_length.
      destruct rewards as [|r rs]; [congruence|]. simpl length.
      change (Init.Nat.pred (S (length rs))) with (length rs).
      rewrite cumulative_lookup by (simpl; lia).
      now rewrite take_ge by (simpl; lia).
Qed.

Lemma store_lines (fieldnames : list string) (d : Q -> list (string * Visualization.cell))
    (rewards : list Q) : forall file,
  fold_left (fun file reward => Visualization.writerow fieldnames (d reward) file)
    rewards file
  = file ++ map (fun reward => map (Visualization.dict_get (d reward)) fieldnames) rewards.
Proof.
  induction rewards as [|r rs IH]; intros file; simpl.
  - now rewrite app_nil_r.
  - rewrite IH. unfold Visualization.writerow. now rewrite <- app_assoc.
Qed.

Lemma store_rewards_to_csv_lines (eg ts : list Q) :
  Visualization.store_rewards_to_csv eg ts
  = [Visualization.Str "Bandit"; Visualization.Str "Reward";
     Visualization.Str "Algorithm"]
      :: map epsilon_greedy_line eg ++ map thompson_line ts.
Proof.
  unfold Visualization.store_rewards_to_csv.
  rewrite (store_lines _ (fun reward =>
             [("Bandit", Visualization.Str "ThompsonSampling");
              ("Reward", Visualization.Num reward);
              ("Algorithm", Visualization.Str "Thompson Sampling")]%string)).
  rewrite (store_lines _ (fun reward =>
             [("Bandit", Visualization.Str "EpsilonGreedy");
              ("Reward", Visualization.Num reward);
              ("Algorithm", Visualization.Str "Epsilon-Greedy")]%string)).
  reflexivity.
Qed.

Lemma rewards_of_app bandit f1 f2 :
  rewards_of bandit (f1 ++ f2) = rewards_of bandit f1 ++ rewards_of bandit f2.
Proof.
  induction f1 as [|line f1 IH]; [reflexivity|].
  simpl. destruct line as [|[b|q] [|[s|r] [|c3 [|c4 line]]]]; try exact IH.
  destruct (String.eqb b bandit); simpl; now rewrite IH.
Qed.

Lemma rewards_of_lines bandit label algorithm (rs : list Q) :
  rewards_of bandit
    (map (fun r => [Visualization.Str label; Visualization.Num r;
                    Visualization.Str algorithm]) rs)
  = if String.eqb label bandit then rs else [].
Proof.
  induction rs as [|r rs IH]; simpl.
  - now destruct (String.eqb label bandit).
  - rewrite IH. now destruct (String.eqb label bandit).
Qed.

(** X14. The table written by [store_rewards_to_csv] is the header line
    followed by one line per [EpsilonGreedy] reward and then one line per
    [ThompsonSampling] reward, in order, each of three cells. Reading the
    [Reward] column of the lines of a policy gives back its reward sequence
    exactly. *)
Theorem store_rewards_to_csv_round_trip (epsilon_greedy_rewards thompson_rewards : list Q) :
  let file :=
    Visualization.store_rewards_to_csv epsilon_greedy_rewards thompson_rewards in
  file = [Visualization.Str "Bandit"; Visualization.Str "Reward";
          Visualization.Str "Algorithm"]
           :: map epsilon_greedy_line epsilon_greedy_rewards
           ++ map thompson_line thompson_rewards /\
  length file = S (length epsilon_greedy_rewards + length thompson_rewards) /\
  Forall (fun line => length line = 3%nat) file /\
  rewards_of "EpsilonGreedy" file = epsilon_greedy_rewards /\
  rewards_of "ThompsonSampling" file = thompson_rewards.
Proof.
  intros file. unfold file. rewrite store_rewards_to_csv_lines.
  split; [reflexivity|]. split; [|split; [|split]].
  - simpl. now rewrite length_app, !length_map.
  - constructor; [reflexivity|]. apply Forall_app. split.
    + apply List.Forall_map. now apply Forall_true.
    + apply List.Forall_map. now apply Forall_true.
  - change (?h :: ?a ++ ?b) with ([h] ++ a ++ b).
    rewrite !rewards_of_app. unfold epsilon_greedy_line, thompson_line.
    rewrite !rewards_of_lines. simpl. now rewrite app_nil_r.
  - change (?h :: ?a ++ ?b) with ([h] ++ a ++ b).
    rewrite !rewards_of_app. unfold epsilon_greedy_line, thompson_line.
    rewrite !rewards_of_lines. reflexivity.
Qed.

Lemma plot2_cumulative_sums_witness :
  Visualization.cumulative [1; 4; 4]%Q !! 1%nat = Some (sumQ [1; 4]%Q) /\
  last (Visualization.cumulative [1; 4; 4]%Q) = Some (sumQ [1; 4; 4]%Q).
Proof.
  destruct (plot2_cumulative_sums [1; 4; 4]%Q []) as [_ H].
  destruct (H [1; 4; 4]%Q) as (_ & Hj & _ & Hlast).
  split.
  - apply (Hj 1%nat). simpl. lia.
  - apply Hlast. discriminate.
Defined.

(** ** [comparison] *)

Lemma true_means_bound (r : Q) : In r true_means -> (1 <= r)%Q /\ (r <= 4)%Q.
Proof.
  unfold true_means. simpl.
  intros [<-|[<-|[<-|[<-|[]]]]]; split; vm_compute; discriminate.
Qed.

Lemma trace_rewards_in tm num_trials tr :
  trace_of tm num_trials tr -> Forall (fun r => In r tm) (map snd tr).
Proof.
  intros [_ H]. apply List.Forall_map.
  eapply Forall_impl; [exact H|]. intros c (_ & _ & Hin). exact Hin.
Qed.

Lemma sumQ_lower (m : Q) (l : list Q) :
  Forall (fun r => (m <= r)%Q) l -> (m * inject_Z (len l) <= sumQ l)%Q.
Proof.
  induction l as [|x l IH] using rev_ind; intros H.
  - change (m * 0 <= 0)%Q. rewrite Qmult_0_r. apply Qle_refl.
  - apply Forall_app in H as [Hl Hx]. apply Forall_cons in Hx as [Hx _].
    specialize (IH Hl). rewrite sumQ_snoc, len_snoc, inject_Z_plus.
    change (inject_Z 1) with 1%Q. cbv beta in Hx.
    assert (E : (m * (inject_Z (len l) + 1) == m * inject_Z (len l) + m)%Q) by ring.
    rewrite E. generalize dependent (m * inject_Z (len l))%Q. intros; lra.
Qed.

(** X15. With [num_trials >= 0] and [randint(a, b)] in [[a, b]],
    [comparison] completes for every generator: both policies return
    [num_trials] rewards, each one of the true means, so that every printed
    cumulative reward lies between [num_trials] and [4 * num_trials], every
    printed cumulative regret is between [0] and [3 * num_trials], and the
    table has a header and [2 * num_trials] lines. *)
Theorem comparison_completes (num_trials : Z) (g : Random) (n : nat) :
  0 <= num_trials ->
  randint_in_range g ->
  exists out k,
    comparison num_trials g n = (Ok out, k) /\
    len (epsilon_greedy_rewards out) = num_trials /\
    len (thompson_rewards out) = num_trials /\
    Forall (fun r => In r true_means) (epsilon_greedy_rewards out) /\
    Forall (fun r => In r true_means) (thompson_rewards out) /\
    (inject_Z num_trials
       <= Visualization.cumulative_epsilon_greedy_reward (printed out)
       <= 4 * inject_Z num_trials)%Q /\
    (inject_Z num_trials
       <= Visualization.cumulative_thompson_reward (printed out)
       <= 4 * inject_Z num_trials)%Q /\
    (0 <= Visualization.cumulative_epsilon_greedy_regret (printed out)
       <= 3 * inject_Z num_trials)%Q /\
    (0 <= Visualization.cumulative_thompson_regret (printed out)
       <= 3 * inject_Z num_trials)%Q /\
    len (table out) = 1 + 2 * num_trials.
Proof.
  intros Hn Hg. unfold comparison.
  destruct (eg_experiment_trials
              (World (EpsilonGreedy.__init__ true_means (2 # 10)) g n) num_trials Hn Hg)
    as (tr1 & w1 & Hrun1 & _ & Htrace1).
  { apply eg_ready_init. discriminate. }
  rewrite Hrun1.
  destruct (ts_experiment_trials
              (World (ThompsonSampling.__init__ true_means) (gen w1) (calls w1))
              num_trials Hn)
    as (tr2 & w2 & Hrun2 & _ & Htrace2).
  { apply ts_ready_init. discriminate. }
  rewrite Hrun2.
  pose proof (trace_rewards_in _ _ _ Htrace1) as Hin1.
  pose proof (trace_rewards_in _ _ _ Htrace2) as Hin2.
  simpl in Hin1, Hin2.
  assert (Hl1 : len (map snd tr1) = num_trials).
  { destruct Htrace1 as [H _]. unfold len in *. now rewrite length_map. }
  assert (Hl2 : len (map snd tr2) = num_trials).
  { destruct Htrace2 as [H _]. unfold len in *. now rewrite length_map. }
  assert (Hb : forall rs, Forall (fun r => In r true_means) rs ->
               (1 * inject_Z (len rs) <= sumQ rs)%Q /\
               (sumQ rs <= 4 * inject_Z (len rs))%Q).
  { intros rs H. split.
    - apply sumQ_lower. eapply Forall_impl; [exact H|].
      intros r Hr. now apply true_means_bound.
    - apply sumQ_bound. eapply Forall_impl; [exact H|].
      intros r Hr. now apply true_means_bound. }
  destruct (Hb _ Hin1) as [Hlo1 Hhi1]. destruct (Hb _ Hin2) as [Hlo2 Hhi2].
  rewrite Hl1 in Hlo1, Hhi1. rewrite Hl2 in Hlo2, Hhi2.
  unfold Visualization.report_cumulative_reward_and_regret.
  change (py_max true_means) with (Ok 4%Q).
  eexists _, _. split; [reflexivity|]. simpl.
  rewrite Hl1, Hl2.
  split; [reflexivity|]. split; [reflexivity|].
  split; [exact Hin1|]. split; [exact Hin2|].
  generalize dependent (sumQ (map snd tr1)). generalize dependent (sumQ (map snd tr2)).
  intros s2 Hlo2 Hhi2 s1 Hlo1 Hhi1.
  repeat split; try lra.
  rewrite store_rewards_to_csv_lines. unfold len in *. simpl.
  rewrite length_app, !length_map. rewrite !length_map in Hl1, Hl2. lia.
Qed.

Lemma comparison_completes_witness :
  exists out k,
    comparison 3 constant_gen 0 = (Ok out, k) /\
    len (epsilon_greedy_rewards out) = 3 /\
    (0 <= Visualization.cumulative_thompson_regret (printed out))%Q.
Proof.
  destruct (comparison_completes 3 constant_gen 0)
    as (out & k & Hrun & Hl & _ & _ & _ & _ & _ & _ & [H0 _] & _).
  - lia.
  - intros j a b H. simpl. lia.
  - exists out, k. repeat split; assumption.
Defined.

(** ** One [update] *)

(** X16. A call [update(arm, reward)] with an arm of [[0, K)] on a sound
    object returns normally and touches that arm only: [EpsilonGreedy] adds
    one to its count and leaves the counts and values of all other arms as
    they were; [ThompsonSampling] adds one to [alpha[arm]] when the reward is
    equal to [1] and to [beta[arm]] otherwise, and leaves the other list and
    all other arms as they were. *)
Theorem update_touches_one_arm
    (se : EpsilonGreedy.t) (st : ThompsonSampling.t)
    (g : Random) (n : nat) (arm : Z) (reward : Q) :
  eg_sound se -> ts_wf st ->
  0 <= arm < len (EpsilonGreedy.true_means se) ->
  0 <= arm < len (ThompsonSampling.true_means st) ->
  (exists se' c,
      EpsilonGreedy.update arm reward (World se g n) = (Ok tt, World se' g n) /\
      EpsilonGreedy.action_counts se !! Z.to_nat arm = Some c /\
      EpsilonGreedy.action_counts se' !! Z.to_nat arm = Some (c + 1) /\
      forall j, j <> Z.to_nat arm ->
        EpsilonGreedy.action_counts se' !! j = EpsilonGreedy.action_counts se !! j /\
        EpsilonGreedy.action_values se' !! j = EpsilonGreedy.action_values se !! j) /\
  (exists st' a b,
      ThompsonSampling.update arm reward (World st g n) = (Ok tt, World st' g n) /\
      ThompsonSampling.alpha st !! Z.to_nat arm = Some a /\
      ThompsonSampling.beta st !! Z.to_nat arm = Some b /\
      ((reward == 1)%Q ->
         ThompsonSampling.alpha st' !! Z.to_nat arm = Some (a + 1) /\
         ThompsonSampling.beta st' = ThompsonSampling.beta st) /\
      (~ (reward == 1)%Q ->
         ThompsonSampling.beta st' !! Z.to_nat arm = Some (b + 1) /\
         ThompsonSampling.alpha st' = ThompsonSampling.alpha st) /\
      forall j, j <> Z.to_nat arm ->
        ThompsonSampling.alpha st' !! j = ThompsonSampling.alpha st !! j /\
        ThompsonSampling.beta st' !! j = ThompsonSampling.beta st !! j).
Proof.
  intros [[Hlc Hlv] Hpos] [Hla Hlb] He Ht. split.
  - destruct (getitem_in_range (EpsilonGreedy.action_counts se) arm) as (c & Hc & _).
    { unfold len in *. now rewrite Hlc. }
    destruct (getitem_in_range (EpsilonGreedy.action_values se) arm) as (v & Hv & _).
    { unfold len in *. now rewrite Hlv. }
    pose proof (Forall_lookup_1 _ _ _ _ Hpos Hc) as Hc0. simpl in Hc0.
    exists (eg_updated (Z.to_nat arm) c v reward se), c.
    split; [|split; [exact Hc|split]].
    + apply eg_update_Ok; [congruence | | assumption | assumption | lia].
      rewrite Hlc. now apply py_index_in_range.
    + change (<[Z.to_nat arm := c + 1]> (EpsilonGreedy.action_counts se)
                !! Z.to_nat arm = Some (c + 1)).
      apply list_lookup_insert_eq. eapply lookup_lt_Some; eassumption.
    + intros j Hj. split.
      * change (<[Z.to_nat arm := c + 1]> (EpsilonGreedy.action_counts se) !! j
                = EpsilonGreedy.action_counts se !! j).
        now apply list_lookup_insert_ne.
      * change (<[Z.to_nat arm := (v + 1 / inject_Z (c + 1) * (reward - v))%Q]>
                  (EpsilonGreedy.action_values se) !! j
                = EpsilonGreedy.action_values se !! j).
        now apply list_lookup_insert_ne.
  - destruct (getitem_in_range (ThompsonSampling.alpha st) arm) as (a & Ha & _).
    { unfold len in *. now rewrite Hla. }
    destruct (getitem_in_range (ThompsonSampling.beta st) arm) as (b & Hb & _).
    { unfold len in *. now rewrite Hlb. }
    exists (ts_updated (Z.to_nat arm) reward st), a, b.
    split; [|split; [exact Ha|split; [exact Hb|]]].
    + apply ts_update_Ok; [congruence|].
      rewrite Hla. now apply py_index_in_range.
    + unfold ts_updated. destruct (Qeq_bool reward 1) eqn:E; simpl.
      * split; [|split].
        -- intros _. split; [|reflexivity].
           rewrite list_lookup_alter_eq, Ha. reflexivity.
        -- intros H. apply Qeq_bool_iff in E. contradiction.
        -- intros j Hj. split; [|reflexivity].
           now apply list_lookup_alter_ne.
      * split; [|split].
        -- intros H. apply Qeq_bool_iff in H. congruence.
        -- intros _. split; [|reflexivity].
           rewrite list_lookup_alter_eq, Hb. reflexivity.
        -- intros j Hj. split; [reflexivity|].
           now apply list_lookup_alter_ne.
Qed.

Lemma update_touches_one_arm_witness :
  (exists se',
      EpsilonGreedy.update 1 4%Q
        (World (EpsilonGreedy.__init__ true_means 0%Q) constant_gen 0)
      = (Ok tt, World se' constant_gen 0) /\
      EpsilonGreedy.action_counts se' !! 1%nat = Some 1 /\
      EpsilonGreedy.action_values se' !! 0%nat = Some 0%Q) /\
  (exists st',
      ThompsonSampling.update 1 4%Q
        (World (ThompsonSampling.__init__ true_means) constant_gen 0)
      = (Ok tt, World st' constant_gen 0) /\
      ThompsonSampling.beta st' !! 1%nat = Some 2 /\
      ThompsonSampling.alpha st' = [1; 1; 1; 1]).
Proof.
  destruct (update_touches_one_arm
              (EpsilonGreedy.__init__ true_means 0%Q)
              (ThompsonSampling.__init__ true_means) constant_gen 0 1 4%Q)
    as [(se' & c & Hu & Hc & Hc' & Hother) (st' & a & b & Hu' & Ha & Hb & _ & Hne & _)].
  - apply eg_sound_init.
  - apply ts_wf_init.
  - unfold len; simpl; lia.
  - unfold len; simpl; lia.
  - split.
    + exists se'. split; [exact Hu|]. split.
      * simpl in Hc. injection Hc as <-. exact Hc'.
      * destruct (Hother 0%nat) as [_ Hv]; [simpl; lia|]. exact Hv.
    + exists st'. split; [exact Hu'|].
      destruct Hne as [Hb' Ha']; [vm_compute; discriminate|].
      simpl in Hb. injection Hb as <-. split; [exact Hb' | exact Ha'].
Defined.
